(** * GoSuki: browser detection, path expansion and the SQLite store front-end

    A shallow embedding of the Go sources

      - [internal/utils] (paths: [DirExists], [GetDataDir], [ExpandPath],
        [ExpandOnly]),
      - [pkg/browsers] ([BrowserDef], [GetBaseDir], [ExpandBaseDir],
        [isValidDir], [Detect]),
      - [pkg/database] ([DBError], [DBErr], [NewDB], [DB.Init], [SQLxxHash],
        [xhsum], [sqlTickClock], [RegisterSqliteHooks], the package [init]),

    together with the properties the specification states about them.

    Go strings are byte sequences, so they are modelled by [string] (a list
    of 8-bit [ascii] characters).  A Go [error] is an interface value that
    may be [nil]: it is modelled by [option err].  Functions that return
    [(value, error)] return a pair.  A run-time panic (an index out of range)
    is a constructor of [outcome].  The operating system (environment
    variables, the home directory, [stat] and symlink resolution) is a record
    of oracles [OS], over which the general statements are quantified. *)

From Stdlib Require Import String Ascii List ZArith Lia Bool Sorted Permutation.
From Stdlib Require Import DecimalString DecimalN.
Import ListNotations.

Local Open Scope string_scope.
Local Open Scope list_scope.

Set Warnings "-register-all".

(** ** The Go runtime: errors, panics, [fmt.Sprintf] *)

Module Go.

(** Values of the interface type [error] that the modelled code creates or
    receives. *)
Inductive err : Type :=
| errorString (msg : string)             (* errors.New, fmt.Errorf *)
| PathError (op path msg : string)       (* fs.PathError of os / filepath *)
| sqlite3Error (Code : Z) (msg : string) (* sqlite3.Error *)
| VfsLocked                              (* the value held by ErrVfsLocked *)
| DBErrorV (DBName : string) (Err : option err).

Definition error : Type := option err.
Definition nil : error := None.

(** What a Go call can do besides returning: panic. *)
Inductive outcome (A : Type) : Type :=
| Ret (a : A)
| Panic (msg : string).
Arguments Ret {A} a.
Arguments Panic {A} msg.

Definition bind {A B} (m : outcome A) (k : A -> outcome B) : outcome B :=
  match m with
  | Ret a => k a
  | Panic msg => Panic msg
  end.

Notation "x <- m ;; k" := (bind m (fun x => k))
  (at level 61, m at next level, right associativity).
Notation "' pat <- m ;; k" := (bind m (fun x => match x with pat => k end))
  (at level 61, pat pattern, m at next level, right associativity).

(** [s[0]] on a string: index out of range when [s] is empty. *)
Definition index0 (s : string) : outcome ascii :=
  match s with
  | EmptyString => Panic "runtime error: index out of range [0] with length 0"
  | String c _ => Ret c
  end.

(** [s[1:]] (only evaluated after [s[0]] succeeded). *)
Definition slice1 (s : string) : string :=
  match s with
  | EmptyString => EmptyString
  | String _ r => r
  end.

(** [fmt.Sprintf] restricted to the verbs the sources use ([%s], [%d]); the
    operands are passed already rendered by [fmt_s], [fmt_s_error] or
    [fmt_d], which is how the verb treats an operand of that type.  The
    model is exact for the formats the sources write out, whose verbs are
    [%s], [%d] or [%%] and use every operand.  For a format with another
    verb, or one that leaves an operand over, [fmt] writes a [%!] report
    that names the operand's type, which is not rendered here. *)
Fixpoint Sprintf (format : string) (operands : list string) : string :=
  match format with
  | EmptyString => EmptyString
  | String "%" (String v rest) =>
      if (Ascii.eqb v "s" || Ascii.eqb v "d")%bool then
        match operands with
        | x :: operands' => x ++ Sprintf rest operands'
        | [] => "%!" ++ String v "(MISSING)" ++ Sprintf rest []
        end
      else if Ascii.eqb v "%" then String "%" (Sprintf rest operands)
      else "%!" ++ String v "(NOVERB)" ++ Sprintf rest operands
  | String c rest => String c (Sprintf rest operands)
  end.

Definition fmt_s (s : string) : string := s.

(** [%d] of an unsigned integer: its decimal digits. *)
Definition fmt_d (n : Z) : string :=
  NilEmpty.string_of_uint (N.to_uint (Z.to_N n)).

Definition nil_verb_s : string := "%!s(<nil>)".

(** The method [Error()] of each error value.  [DBErrorV] is the
    [database.DBError] struct seen through the interface; its method is
    [fmt.Sprintf("<%s>: %s", e.DBName, e.Err)]. *)
Fixpoint Error (e : err) : string :=
  match e with
  | errorString msg => msg
  | PathError op path msg => op ++ " " ++ path ++ ": " ++ msg
  | sqlite3Error _ msg => msg
  | VfsLocked => "vfs locked"
  | DBErrorV name inner =>
      Sprintf "<%s>: %s"
        [fmt_s name;
         match inner with
         | None => nil_verb_s
         | Some x => Error x
         end]
  end.

(** [%s] of an operand of interface type [error]. *)
Definition fmt_s_error (e : error) : string :=
  match e with
  | None => nil_verb_s
  | Some x => Error x
  end.

End Go.

Import Go.

(** ** Package [internal/utils] *)

Module Utils.

(** *** The standard-library functions the package calls

    [path/filepath] and [os.Expand] are pure string functions and are written
    out (Unix flavour, the platforms the browser definitions are generated
    for).  [os.Getenv], [os.UserHomeDir], [os.Stat] and
    [filepath.EvalSymlinks] ask the operating system: they are the fields of
    [OS]. *)

Record FileInfo : Type := { IsDir : bool }.

Record OS : Type := {
  Getenv : string -> string;
  UserHomeDir : string * error;
  Stat : string -> FileInfo + err;
  EvalSymlinks : string -> string * error
}.

(** [strings.Split(s, sep)] for a one-byte separator. *)
Fixpoint split (sep : ascii) (s : string) : list string :=
  match s with
  | EmptyString => [EmptyString]
  | String c r =>
      if Ascii.eqb c sep then EmptyString :: split sep r
      else match split sep r with
           | h :: t => String c h :: t
           | [] => [String c EmptyString]
           end
  end.

Definition rooted (s : string) : bool :=
  match s with
  | String "/" _ => true
  | _ => false
  end.

(** One path element processed by [filepath.Clean]; [out] is the output so
    far, last element first. *)
Definition clean_step (is_rooted : bool) (out : list string) (c : string)
  : list string :=
  if (String.eqb c "" || String.eqb c ".")%bool then out
  else if String.eqb c ".." then
    match out with
    | top :: out' =>
        if String.eqb top ".." then (if is_rooted then out else ".." :: out)
        else out'
    | [] => if is_rooted then [] else [".."]
    end
  else c :: out.

(** [filepath.Clean]: collapse repeated separators, drop [.] elements,
    resolve inner [..] lexically, drop [..] at the root; the empty result is
    [.]. *)
Definition Clean (path : string) : string :=
  let is_rooted := rooted path in
  let out := fold_left (clean_step is_rooted) (split "/" path) [] in
  let body := String.concat "/" (rev out) in
  let r := if is_rooted then String "/" body else body in
  if String.eqb r "" then "." else r.

(** [filepath.Join]: empty elements before the first non-empty one are
    ignored, the rest is joined with the separator and cleaned; all elements
    empty gives the empty string. *)
Fixpoint Join (elem : list string) : string :=
  match elem with
  | [] => EmptyString
  | e :: rest =>
      if String.eqb e "" then Join rest
      else Clean (String.concat "/" elem)
  end.

Definition in_range (lo hi c : ascii) : bool :=
  (N.leb (N_of_ascii lo) (N_of_ascii c) && N.leb (N_of_ascii c) (N_of_ascii hi))%bool.

Definition isShellSpecialVar (c : ascii) : bool :=
  (existsb (Ascii.eqb c) ["*"; "#"; "$"; "@"; "!"; "?"; "-"]%char
   || in_range "0" "9" c)%bool.

Definition isAlphaNum (c : ascii) : bool :=
  (Ascii.eqb c "_" || in_range "0" "9" c || in_range "a" "z" c
   || in_range "A" "Z" c)%bool.

Fixpoint find_byte (c : ascii) (s : string) : option nat :=
  match s with
  | EmptyString => None
  | String d r =>
      if Ascii.eqb d c then Some 0
      else option_map S (find_byte c r)
  end.

Fixpoint take_while (p : ascii -> bool) (s : string) : string :=
  match s with
  | EmptyString => EmptyString
  | String c r => if p c then String c (take_while p r) else EmptyString
  end.

(** [os.getShellName]: the variable name that starts [s] (the text after a
    dollar sign) and the number of bytes it takes. *)
Definition getShellName (s : string) : string * nat :=
  match s with
  | EmptyString => (EmptyString, 0)
  | String "{" r =>
      let scan :=
        match find_byte "}" r with
        | Some 0 => (EmptyString, 2)
        | Some k => (String.substring 0 k r, k + 2)
        | None => (EmptyString, 1)
        end in
      match r with
      | String c1 (String "}" _) =>
          if isShellSpecialVar c1 then (String c1 EmptyString, 3) else scan
      | _ => scan
      end
  | String c r =>
      if isShellSpecialVar c then (String c EmptyString, 1)
      else let name := take_while isAlphaNum s in (name, String.length name)
  end.

(** The loop of [os.Expand]; [skip] is the number of bytes the previous
    variable reference still covers ([j += w]). *)
Fixpoint expand_from (mapping : string -> string) (skip : nat) (s : string)
  : string :=
  match s with
  | EmptyString => EmptyString
  | String c rest =>
      match skip with
      | S k => expand_from mapping k rest
      | O =>
          if (Ascii.eqb c "$" && negb (String.eqb rest ""))%bool then
            let '(name, w) := getShellName rest in
            (if String.eqb name "" then
               if Nat.ltb 0 w then EmptyString else "$"
             else mapping name)
            ++ expand_from mapping w rest
          else String c (expand_from mapping 0 rest)
      end
  end.

Definition Expand (s : string) (mapping : string -> string) : string :=
  expand_from mapping 0 s.

Definition ExpandEnv (os : OS) (s : string) : string :=
  Expand s (Getenv os).

(** *** The package's functions *)

Definition DirExists (os : OS) (path : string) : bool * error :=
  match Stat os path with
  | inr e => (false, Some e)
  | inl info => (IsDir info, nil)
  end.

Definition GetDataDir (os : OS) : string * error :=
  let dir := Getenv os "XDG_DATA_HOME" in
  if negb (String.eqb dir "") then (dir, nil)
  else
    match UserHomeDir os with
    | (_, Some e) => (EmptyString, Some e)
    | (home, None) => (Join [home; ".local"; "share"], nil)
    end.

Definition no_path_provided : error := Some (errorString "no path provided").

(** [ExpandPath] expands a path with environment variables and tilde;
    symlinks are followed. *)
Definition ExpandPath (os : OS) (paths : list string)
  : outcome (string * error) :=
  if Nat.eqb (List.length paths) 0 then Ret (EmptyString, no_path_provided)
  else
    match UserHomeDir os with
    | (_, Some e) => Ret (EmptyString, Some e)
    | (homedir, None) =>
        let path := ExpandEnv os (Join paths) in
        c <- index0 path ;;
        let path :=
          if Ascii.eqb c "~" then Join [homedir; slice1 path] else path in
        Ret (EvalSymlinks os path)
    end.

(** [ExpandOnly] expands a path without following symlinks. *)
Definition ExpandOnly (os : OS) (paths : list string)
  : outcome (string * error) :=
  if Nat.eqb (List.length paths) 0 then Ret (EmptyString, no_path_provided)
  else if Nat.eqb (String.length (hd EmptyString paths)) 0
  then Ret (EmptyString, no_path_provided)
  else
    match UserHomeDir os with
    | (_, Some e) => Ret (EmptyString, Some e)
    | (homedir, None) =>
        let path := ExpandEnv os (Join paths) in
        c <- index0 path ;;
        let path :=
          if Ascii.eqb c "~" then Join [homedir; slice1 path] else path in
        Ret (path, nil)
    end.

End Utils.

(** ** Package [pkg/browsers] *)

Module Browsers.

Import Utils.

Inductive BrowserFamily : Type := Mozilla | ChromeBased | Qutebrowser.

Record BrowserDef : Type := {
  Flavour : string;       (* also acts as canonical name *)
  Family : BrowserFamily;
  BaseDir : string;       (* base browser directory path *)
  SnapDir : string;       (* path to snap package base dir *)
  FlatpakDir : string     (* path to flatpak package base dir *)
}.

Definition Flatpak : string := "flat".
Definition Snap : string := "snap".

Definition MozBrowser (flavour base snap flat : string) : BrowserDef :=
  {| Flavour := flavour; BaseDir := base; Family := Mozilla;
     SnapDir := snap; FlatpakDir := flat |}.

Definition ChromeBrowser (flavour base snap flat : string) : BrowserDef :=
  {| Flavour := flavour; BaseDir := base; Family := ChromeBased;
     SnapDir := snap; FlatpakDir := flat |}.

(** [isValidDir]: the directory is non-empty, expands (without following
    symlinks) and [os.Stat] reports a directory.  The log lines have no
    effect on the result. *)
Definition isValidDir (os : OS) (dir ptype : string) : outcome bool :=
  if String.eqb dir "" then Ret false
  else
    '(normDir, err) <- ExpandOnly os [dir] ;;
    match err with
    | Some _ => Ret false
    | None =>
        let '(ok, _) := DirExists os normDir in
        Ret ok
    end.

(** Go's [a != "" && f()] : [f] is only called when the left operand holds. *)
Definition nonempty_and (dir : string) (check : outcome bool) : outcome bool :=
  if negb (String.eqb dir "") then check else Ret false.

(** Base directory without normalization. *)
Definition GetBaseDir (os : OS) (b : BrowserDef) : outcome string :=
  flat <- nonempty_and (FlatpakDir b) (isValidDir os (FlatpakDir b) Flatpak) ;;
  if flat then Ret (FlatpakDir b)
  else
    snap <- nonempty_and (SnapDir b) (isValidDir os (SnapDir b) Snap) ;;
    if snap then Ret (SnapDir b)
    else Ret (BaseDir b).

(** Expands to the full path of the base directory; the snap or flatpak
    directory when the browser is installed that way. *)
Definition ExpandBaseDir (os : OS) (b : BrowserDef) : outcome (string * error) :=
  flat <- nonempty_and (FlatpakDir b) (isValidDir os (FlatpakDir b) Flatpak) ;;
  if flat then ExpandPath os [FlatpakDir b]
  else
    snap <- nonempty_and (SnapDir b) (isValidDir os (SnapDir b) Snap) ;;
    if snap then ExpandPath os [SnapDir b]
    else ExpandPath os [BaseDir b].

(** [Detect].  In the first branch ([ExpandBaseDir] failed) the code logs
    [b.GetBaseDir()] and "skipping" and then leaves the [if]: control
    reaches the final [return true]. *)
Definition Detect (os : OS) (b : BrowserDef) : outcome bool :=
  '(dir, err) <- ExpandBaseDir os b ;;
  match err with
  | Some _ =>
      _ <- GetBaseDir os b ;;   (* argument of log.Debugf *)
      Ret true
  | None =>
      match DirExists os dir with
      | (_, Some _) => Ret false
      | (false, None) => Ret false
      | (true, None) => Ret true
      end
  end.

End Browsers.

(** ** The hash function of [github.com/OneOfOne/xxhash]

    [xxhash.ChecksumString64] is XXH64 with seed 0 over the bytes of the
    string.  Unsigned 64-bit arithmetic is arithmetic on [Z] reduced modulo
    [2^64]. *)

Module XXHash.

Local Open Scope Z_scope.

Definition w64 (x : Z) : Z := x mod 2 ^ 64.

Definition prime64_1 : Z := 11400714785074694791.
Definition prime64_2 : Z := 14029467366897019727.
Definition prime64_3 : Z := 1609587929392839161.
Definition prime64_4 : Z := 9650029242287828579.
Definition prime64_5 : Z := 2870177450012600261.

Definition rotl64 (x r : Z) : Z :=
  w64 (Z.lor (Z.shiftl x r) (Z.shiftr x (64 - r))).

Definition round64 (acc input : Z) : Z :=
  w64 (rotl64 (w64 (acc + input * prime64_2)) 31 * prime64_1).

Definition mergeRound64 (acc val : Z) : Z :=
  w64 (Z.lxor acc (round64 0 val) * prime64_1 + prime64_4).

Definition byte_of (c : ascii) : Z := Z.of_N (N_of_ascii c).

(** Little-endian read of the first [n] bytes. *)
Fixpoint le_read (n : nat) (bs : list Z) : Z :=
  match n, bs with
  | S n', b :: bs' => b + 256 * le_read n' bs'
  | _, _ => 0
  end.

Definition u64 (bs : list Z) : Z := le_read 8 bs.
Definition u32 (bs : list Z) : Z := le_read 4 bs.

(** The 32-byte stripes: [n] of them are consumed. *)
Fixpoint stripes (n : nat) (v : Z * Z * Z * Z) (bs : list Z)
  : (Z * Z * Z * Z) * list Z :=
  match n with
  | O => (v, bs)
  | S n' =>
      let '(v1, v2, v3, v4) := v in
      stripes n'
        (round64 v1 (u64 bs),
         round64 v2 (u64 (skipn 8 bs)),
         round64 v3 (u64 (skipn 16 bs)),
         round64 v4 (u64 (skipn 24 bs)))
        (skipn 32 bs)
  end.

(** The 8-byte words of the tail: [n] of them are consumed. *)
Fixpoint tail8 (n : nat) (h : Z) (bs : list Z) : Z * list Z :=
  match n with
  | O => (h, bs)
  | S n' =>
      let h := Z.lxor h (round64 0 (u64 bs)) in
      tail8 n' (w64 (rotl64 h 27 * prime64_1 + prime64_4)) (skipn 8 bs)
  end.

Definition tail4 (h : Z) (bs : list Z) : Z * list Z :=
  if Nat.leb 4 (List.length bs) then
    let h := Z.lxor h (w64 (u32 bs * prime64_1)) in
    (w64 (rotl64 h 23 * prime64_2 + prime64_3), skipn 4 bs)
  else (h, bs).

Fixpoint tail1 (h : Z) (bs : list Z) : Z :=
  match bs with
  | [] => h
  | b :: bs' =>
      tail1 (w64 (rotl64 (Z.lxor h (w64 (b * prime64_5))) 11 * prime64_1)) bs'
  end.

Definition avalanche (h : Z) : Z :=
  let h := w64 (Z.lxor h (Z.shiftr h 33) * prime64_2) in
  let h := w64 (Z.lxor h (Z.shiftr h 29) * prime64_3) in
  Z.lxor h (Z.shiftr h 32).

Definition Checksum64S (bs : list Z) (seed : Z) : Z :=
  let len := List.length bs in
  let '(h, rest) :=
    if Nat.leb 32 len then
      let '((v1, v2, v3, v4), rest) :=
        stripes (Nat.div len 32)
          (w64 (seed + prime64_1 + prime64_2), w64 (seed + prime64_2),
           w64 seed, w64 (seed - prime64_1)) bs in
      let h := w64 (rotl64 v1 1 + rotl64 v2 7 + rotl64 v3 12 + rotl64 v4 18) in
      (mergeRound64 (mergeRound64 (mergeRound64 (mergeRound64 h v1) v2) v3) v4,
       rest)
    else (w64 (seed + prime64_5), bs) in
  let h := w64 (h + Z.of_nat len) in
  let '(h, rest) := tail8 (Nat.div (List.length rest) 8) h rest in
  let '(h, rest) := tail4 h rest in
  avalanche (tail1 h rest).

Definition ChecksumString64 (s : string) : Z :=
  Checksum64S (map byte_of (list_ascii_of_string s)) 0.

End XXHash.

(** ** Package [pkg/database] *)

Module Database.

Import Utils.

Local Open Scope Z_scope.

Definition DriverDefault : string := "sqlite3_gosuki".
Definition DBFileName : string := "gosuki.db".
Definition DriverBackupMode : string := "sqlite_hook_backup".

Inductive DBType : Type := DBTypeInMemory | DBTypeRegularFile.

(** *** Errors *)

Record DBError : Type := {
  DBName : string;   (* database object where the error occurred *)
  Err : error        (* error that occurred *)
}.

(** The composite literal [DBError{Err: err}] leaves [DBName] at its zero
    value. *)
Definition DBErr (dbName : string) (err : error) : DBError :=
  {| DBName := EmptyString; Err := err |}.

Definition DBError_Error (e : DBError) : string :=
  Sprintf "<%s>: %s" [fmt_s (DBName e); fmt_s_error (Err e)].

(** A [DBError] returned where an [error] is expected. *)
Definition as_error (e : DBError) : error := Some (DBErrorV (DBName e) (Err e)).

Definition ErrVfsLocked : error := Some VfsLocked.

(** [sqlite3.ErrBusy] *)
Definition ErrBusy : Z := 5.

(** *** Hashing *)

Definition SQLxxHash (input : string) : string :=
  Sprintf "%d" [fmt_d (XXHash.ChecksumString64 input)].

(** Calculates the xxhash sum of a bookmark. *)
Definition xhsum (url metadata tags desc : string) : string :=
  let input :=
    Sprintf "%s+%s+%s+%s" [fmt_s url; fmt_s metadata; fmt_s tags; fmt_s desc] in
  SQLxxHash input.

(** *** The logical clock *)

Definition uint64_max : Z := 2 ^ 64 - 1.

Record LamportClock : Type := { Value : Z }.

(** Modelled from the spec: the package variable [Clock] and its method
    [Tick] are declared in a file that is not among the sources.  Section
    4.1: "Exposes tick(previous: u64) -> u64 returning max(internal,
    previous) + 1 and atomically updating internal."  The addition is
    unsigned 64-bit addition, as the signature of [sqlTickClock] fixes. *)
Definition Tick (c : LamportClock) (previous : Z) : Z * LamportClock :=
  let v := (Z.max (Value c) previous + 1) mod 2 ^ 64 in
  (v, {| Value := v |}).

(** Ticks the local node's lamport clock and returns the current clock
    number; the package variable [Clock] is passed in and out. *)
Definition sqlTickClock (Clock : LamportClock) (previous : Z)
  : Z * LamportClock :=
  Tick Clock previous.

(** Successive calls, each with its own argument. *)
Fixpoint tick_all (Clock : LamportClock) (previous : list Z)
  : list Z * LamportClock :=
  match previous with
  | [] => ([], Clock)
  | p :: ps =>
      let '(v, Clock1) := sqlTickClock Clock p in
      let '(vs, Clock2) := tick_all Clock1 ps in
      (v :: vs, Clock2)
  end.

(** *** SQL functions registered on every connection *)

Inductive SqlFunc : Type := FnSQLFuzzy | FnSqlTickClock | FnSQLxxHash.

(** A [sqlite3.SQLiteConn]: the functions registered on it so far. *)
Definition SQLiteConn : Type := list (string * SqlFunc).

(** [conn.RegisterFunc(name, impl, pure)]; [refuse name] is the error SQLite
    answers with, if any. *)
Definition RegisterFunc (refuse : string -> error) (conn : SQLiteConn)
    (name : string) (impl : SqlFunc) : SQLiteConn * error :=
  match refuse name with
  | Some e => (conn, Some e)
  | None => ((name, impl) :: conn, nil)
  end.

(** The [ConnectHook] of the driver registered as [DriverDefault]. *)
Definition ConnectHook (refuse : string -> error) (conn : SQLiteConn)
  : SQLiteConn * error :=
  match RegisterFunc refuse conn "fuzzy" FnSQLFuzzy with
  | (conn, Some e) => (conn, Some e)
  | (conn, None) =>
      match RegisterFunc refuse conn "tick_clock" FnSqlTickClock with
      | (conn, Some e) => (conn, Some e)
      | (conn, None) => RegisterFunc refuse conn "xhash" FnSQLxxHash
      end
  end.

(** *** Database handles *)

(** A pointer to [sqlx.DB]. *)
Record sqlxDB : Type := { driverName : string; dataSourceName : string }.

Record DB : Type := {
  Name : string;
  Path : string;
  Handle : option sqlxDB;
  EngineMode : string;
  AttachedTo : list string;
  Typ : DBType;                 (* the field [Type] *)
  filePath : string;
  SQLXOpener : option sqlxDB;   (* the [handle] of the embedded opener *)
  LockChecker : string          (* the [path] of the embedded lock checker *)
}.

(** [NewDB] called without DSN options; [dbPath] is the empty string for an
    in-memory database.  [Init] is required before use. *)
Definition NewDB (name dbPath dbFormat : string) : DB :=
  let '(path, dbType) :=
    if String.eqb dbPath ""
    then (Sprintf dbFormat [fmt_s name], DBTypeInMemory)
    else (Sprintf dbFormat [fmt_s dbPath], DBTypeRegularFile) in
  {| Name := name; Path := path; Handle := None;
     EngineMode := DriverDefault; AttachedTo := [];
     Typ := dbType; filePath := dbPath; SQLXOpener := None;
     LockChecker := dbPath |}.

(** What the database library and the lock checker answer. *)
Record SqlEnv : Type := {
  sqlx_Open : string -> string -> sqlxDB + err;   (* sqlx.Open *)
  Ping : sqlxDB -> error;                         (* Ping of sqlx.DB *)
  VFSLocked : string -> bool * error              (* VFSLockChecker.Locked *)
}.

Inductive call : Type :=
| CallLocked (path : string)
| CallOpen (driver dsn : string)
| CallPing (h : sqlxDB).

Definition with_handles (db : DB) (h opener : option sqlxDB) : DB :=
  {| Name := Name db; Path := Path db; Handle := h;
     EngineMode := EngineMode db; AttachedTo := AttachedTo db;
     Typ := Typ db; filePath := filePath db; SQLXOpener := opener;
     LockChecker := LockChecker db |}.

(** [db.open()]: the receiver after the call, the error, the calls made. *)
Definition open (env : SqlEnv) (db : DB) : DB * error * list call :=
  match sqlx_Open env (EngineMode db) (Path db) with
  | inr e => (with_handles db (Handle db) None, Some e,
              [CallOpen (EngineMode db) (Path db)])
  | inl h =>
      let db := with_handles db (Some h) (Some h) in
      (db, Ping env h, [CallOpen (EngineMode db) (Path db); CallPing h])
  end.

Definition Locked (env : SqlEnv) (db : DB) : bool * error :=
  VFSLocked env (LockChecker db).

(** [err.(sqlite3.Error)] followed by [.Code]: the zero value when the
    assertion fails. *)
Definition sqlErr_Code (e : error) : Z :=
  match e with
  | Some (sqlite3Error code _) => code
  | _ => 0
  end.

Definition is_nil (e : error) : bool :=
  match e with None => true | Some _ => false end.

(** [db.Init()]: the receiver after the call, the returned pointer
    and error,
    and the calls made to the library. *)
Definition Init (env : SqlEnv) (db : DB)
  : DB * (option DB * error) * list call :=
  match Handle db with
  | Some _ => (db, (Some db, nil), [])
  | None =>
      let probe : option (option DB * error) * list call :=
        match Typ db with
        | DBTypeRegularFile =>
            match Locked env db with
            | (_, Some e) =>
                (Some (None, as_error {| DBName := Name db; Err := Some e |}),
                 [CallLocked (LockChecker db)])
            | (true, None) =>
                (Some (None, ErrVfsLocked), [CallLocked (LockChecker db)])
            | (false, None) => (None, [CallLocked (LockChecker db)])
            end
        | DBTypeInMemory => (None, [])
        end in
      match probe with
      | (Some r, calls) => (db, r, calls)
      | (None, calls) =>
          let '(db1, err, calls') := open env db in
          if (negb (is_nil err) && Z.eqb (sqlErr_Code err) ErrBusy)%bool then
            (db1, (None, ErrVfsLocked), calls ++ calls')
          else if negb (is_nil err) then
            (db1, (None, as_error {| DBName := Name db; Err := err |}),
             calls ++ calls')
          else (db1, (Some db1, nil), calls ++ calls')
      end
  end.

(** *** Configuration *)

Module dbConfig.
Record t : Type := {
  SyncInterval : Z;   (* time.Duration, nanoseconds; key "sync-interval" *)
  Path : string       (* key "path" *)
}.
End dbConfig.

(** [time.Second] *)
Definition Second : Z := 1000000000.

Inductive setting : Type :=
| SetDuration (d : Z)
| SetString (s : string).

(** Modelled from the spec: package [pkg/config] is not among the sources.
    Section 6: "Path is overridable"; section 4.9: "Backup interval is
    configurable".  A configurator made from a pointer to a struct stores a
    setting in the field whose [mapstructure] tag is the key. *)
Definition dbConfig_set (c : dbConfig.t) (key : string) (v : setting)
  : dbConfig.t :=
  match v with
  | SetString s =>
      if String.eqb key "path"
      then {| dbConfig.SyncInterval := dbConfig.SyncInterval c;
              dbConfig.Path := s |}
      else c
  | SetDuration d =>
      if String.eqb key "sync-interval"
      then {| dbConfig.SyncInterval := d; dbConfig.Path := dbConfig.Path c |}
      else c
  end.

(** The package after [init]: the variable [Config] and the names under
    which it is registered as a configurator. *)
Record Package : Type := {
  Config : dbConfig.t;
  configurators : list string
}.

(** Modelled from the spec: [config.RegisterConfigurator] (not among the
    sources) applied to a loaded setting [name.key = v]. *)
Definition configure (p : Package) (name key : string) (v : setting)
  : Package :=
  if existsb (String.eqb name) (configurators p)
  then {| Config := dbConfig_set (Config p) key v;
          configurators := configurators p |}
  else p.

Inductive startup (A : Type) : Type :=
| Started (a : A)
| Fatal (e : err).   (* log.Fatal: the process exits *)
Arguments Started {A} a.
Arguments Fatal {A} e.

(** The package's [init] function. *)
Definition init (os : OS) : startup Package :=
  match GetDataDir os with
  | (_, Some e) => Fatal e
  | (dataDir, None) =>
      let dbPath := Join [dataDir; "gosuki/gosuki.db"] in
      Started {| Config := {| dbConfig.SyncInterval := Second * 4;
                              dbConfig.Path := dbPath |};
                 configurators := ["database"] |}
  end.

End Database.

(** ** A small machine

    A concrete operating system built from a table of environment variables
    and a table of files, on which the definitions above evaluate. *)

Module Machine.

Import Utils.

Inductive node : Type :=
| Dir
| File
| Link (target : string).

Fixpoint lookup {A : Type} (k : string) (table : list (string * A)) : option A :=
  match table with
  | [] => None
  | (k', v) :: rest => if String.eqb k k' then Some v else lookup k rest
  end.

Definition getenv (vars : list (string * string)) (k : string) : string :=
  match lookup k vars with
  | Some v => v
  | None => EmptyString
  end.

(** Follow links, at most [n] of them, to a directory or a file. *)
Fixpoint resolve (n : nat) (fs : list (string * node)) (path : string)
  : option (string * bool) :=
  match lookup path fs with
  | None => None
  | Some Dir => Some (path, true)
  | Some File => Some (path, false)
  | Some (Link target) =>
      match n with
      | O => None
      | S n' => resolve n' fs target
      end
  end.

Definition no_such_file (op path : string) : err :=
  PathError op path "no such file or directory".

(** The home directory is [$HOME], as on every Unix. *)
Definition machine (vars : list (string * string)) (fs : list (string * node))
  : OS :=
  {| Getenv := getenv vars;
     UserHomeDir :=
       if String.eqb (getenv vars "HOME") ""
       then (EmptyString, Some (errorString "$HOME is not defined"))
       else (getenv vars "HOME", nil);
     Stat := fun path =>
       match resolve 255 fs path with
       | Some (_, is_dir) => inl {| IsDir := is_dir |}
       | None => inr (no_such_file "stat" path)
       end;
     EvalSymlinks := fun path =>
       match resolve 255 fs path with
       | Some (real, _) => (real, nil)
       | None => (EmptyString, Some (no_such_file "lstat" path))
       end |}.

Definition files : list (string * node) :=
  [("/home/u", Dir);
   ("/home/u/.config/chromium", Dir);
   ("/home/u/.var/app/org.mozilla.firefox/.mozilla/firefox", Dir);
   ("/home/u/snap/firefox/common/.mozilla/firefox", Link "/data/firefox");
   ("/data/firefox", Dir);
   ("/home/u/.config/qutebrowser", File);
   ("/tmp", Dir)].

(** A user [u] with a home directory. *)
Definition laptop : OS :=
  machine [("HOME", "/home/u"); ("XDG_DATA_HOME", "/home/u/.data")] files.

(** The same user without [XDG_DATA_HOME]. *)
Definition plain : OS := machine [("HOME", "/home/u")] files.

(** A service account: no [HOME]. *)
Definition daemon : OS := machine [] files.

End Machine.

(** ** What the specification says, in its own words

    These definitions follow the text of the specification; the theorems
    below compare them with the functions taken from the sources. *)

Module Spec.

Import Utils Browsers.

Local Open Scope string_scope.

(** "replaces a leading ~ with the user's home directory" *)
Definition tilde (homedir path : string) : string :=
  match path with
  | String "~" rest => Join [homedir; rest]
  | _ => path
  end.

(** "expands environment variables, replaces a leading ~" *)
Definition expansion (os : OS) (homedir : string) (paths : list string)
  : string :=
  tilde homedir (ExpandEnv os (Join paths)).

(** "exists as a directory on disk" *)
Definition is_directory (os : OS) (path : string) : Prop :=
  exists info, Stat os path = inl info /\ IsDir info = true.

(** "expands to an existing real directory" *)
Definition expands_to_directory (os : OS) (dir : string) : Prop :=
  exists path, ExpandOnly os [dir] = Ret (path, nil) /\ is_directory os path.

(** "non-empty and expands to an existing real directory" *)
Definition usable (os : OS) (dir : string) : Prop :=
  dir <> EmptyString /\ expands_to_directory os dir.

(** The same, as a test that can be evaluated.  The expansion is the one
    of [ExpandOnly], which asks for the home directory first. *)
Definition is_directoryb (os : OS) (path : string) : bool :=
  match Stat os path with
  | inl info => IsDir info
  | inr _ => false
  end.

Definition usableb (os : OS) (dir : string) : bool :=
  (negb (String.eqb dir "")
   && match ExpandOnly os [dir] with
      | Ret (path, None) => is_directoryb os path
      | _ => false
      end)%bool.

(** "if flatpak_dir exists and expands to a real directory, prefer it; else
    snap_dir; else base_dir" *)
Definition effective_base_dir (os : OS) (b : BrowserDef) : string :=
  if usableb os (FlatpakDir b) then FlatpakDir b
  else if usableb os (SnapDir b) then SnapDir b
  else BaseDir b.

(** "a SQLITE_BUSY result" *)
Definition busy (e : error) : Prop :=
  exists msg, e = Some (sqlite3Error Database.ErrBusy msg).

(** No call of a sequence of ticks reaches the largest 64-bit value. *)
Fixpoint no_wrap (Clock : Database.LamportClock) (previous : list Z) : Prop :=
  match previous with
  | [] => True
  | p :: ps =>
      (Z.max (Database.Value Clock) p < Database.uint64_max)%Z
      /\ no_wrap (snd (Database.sqlTickClock Clock p)) ps
  end.

(** "url + title + sorted_tags_comma_joined + description", with the
    separators *)
Definition canonical (url title tags description : string) : string :=
  url ++ "+" ++ title ++ "+" ++ tags ++ "+" ++ description.

(** The directory is empty or its expansion is not the empty path. *)
Definition expands_nonempty (os : OS) (dir : string) : Prop :=
  dir = EmptyString \/ ExpandEnv os (Join [dir]) <> EmptyString.

(** The separator occurs in the field. *)
Fixpoint has_plus (s : string) : bool :=
  match s with
  | EmptyString => false
  | String c r => (Ascii.eqb c "+" || has_plus r)%bool
  end.

End Spec.

(** ** Browser definitions and databases used in the examples *)

Module Installed.

Import Browsers.

Definition firefox : BrowserDef :=
  MozBrowser "firefox" "~/.mozilla/firefox"
    "~/snap/firefox/common/.mozilla/firefox"
    "~/.var/app/org.mozilla.firefox/.mozilla/firefox".

Definition firefox_snap : BrowserDef :=
  MozBrowser "firefox" "~/.mozilla/firefox"
    "~/snap/firefox/common/.mozilla/firefox" "".

(** Not installed on the machines of [Machine]. *)
Definition librewolf : BrowserDef := MozBrowser "librewolf" "~/.librewolf" "" "".

Definition chromium : BrowserDef :=
  ChromeBrowser "chromium" "~/.config/chromium" "" "".

(** Its base directory is a regular file on the machines of [Machine]. *)
Definition qutebrowser : BrowserDef :=
  {| Flavour := "qutebrowser"; Family := Qutebrowser;
     BaseDir := "~/.config/qutebrowser"; SnapDir := ""; FlatpakDir := "" |}.

(** A flatpak directory given by an absolute path. *)
Definition packaged : BrowserDef :=
  MozBrowser "firefox" "/opt/firefox" "" "/data/firefox".

(** A flatpak directory given by an environment variable alone. *)
Definition by_variable : BrowserDef :=
  MozBrowser "firefox" "/opt/firefox" "" "$GOSUKI_FLATPAK".

(** The on-disk database and the in-memory cache. *)
Definition gosuki_db : Database.DB :=
  Database.NewDB "gosuki_db" "/home/u/.local/share/gosuki/gosuki.db" "file:%s".

Definition memcache : Database.DB :=
  Database.NewDB "memcache" "" "file:%s?mode=memory&cache=shared".

Definition gosuki_handle : Database.sqlxDB :=
  {| Database.driverName := Database.DriverDefault;
     Database.dataSourceName := "file:/home/u/.local/share/gosuki/gosuki.db" |}.

(** Another process holds the write lock on every database file. *)
Definition held : Database.SqlEnv :=
  {| Database.sqlx_Open := fun driver dsn =>
       inl {| Database.driverName := driver; Database.dataSourceName := dsn |};
     Database.Ping := fun _ => nil;
     Database.VFSLocked := fun _ => (true, nil) |}.

(** The probe passes, but the first query finds the database busy. *)
Definition contended : Database.SqlEnv :=
  {| Database.sqlx_Open := fun driver dsn =>
       inl {| Database.driverName := driver; Database.dataSourceName := dsn |};
     Database.Ping := fun _ =>
       Some (sqlite3Error Database.ErrBusy "database is locked");
     Database.VFSLocked := fun _ => (false, nil) |}.

End Installed.

(** ** Notions used to reason about [filepath.Clean] *)

Module Paths.

Import Utils.

Local Open Scope string_scope.

Fixpoint has_slash (s : string) : bool :=
  match s with
  | EmptyString => false
  | String c r => (Ascii.eqb c "/" || has_slash r)%bool
  end.

(** A path element that [Clean] keeps as it is. *)
Definition plain_element (c : string) : Prop :=
  c <> "" /\ c <> "." /\ c <> ".." /\ has_slash c = false.

(** The shape of the output of [Clean]: plain elements on top of [k]
    leading [..] elements, none of them in a rooted path. *)
Definition stack_ok (is_rooted : bool) (out : list string) : Prop :=
  exists (normal : list string) (k : nat),
    out = (normal ++ repeat ".." k)%list
    /\ Forall plain_element normal
    /\ (is_rooted = true -> k = 0).

(** The string [Clean] makes of its output. *)
Definition render (is_rooted : bool) (out : list string) : string :=
  let body := String.concat "/" (rev out) in
  let r := if is_rooted then String "/" body else body in
  if String.eqb r "" then "." else r.

End Paths.

(** ** More of [internal/utils]: files and directories *)

Module Files.

Import Utils.

Local Open Scope string_scope.

(** [os.IsNotExist] and [os.IsPermission]: which error values stand for
    [ENOENT] and for [EACCES] / [EPERM]. *)
Record Errno : Type := {
  IsNotExist : err -> bool;
  IsPermission : err -> bool
}.

(** [strings.HasPrefix(s, prefix)] *)
Fixpoint HasPrefix (s prefix : string) : bool :=
  match prefix, s with
  | EmptyString, _ => true
  | String a p, String b r => (Ascii.eqb a b && HasPrefix r p)%bool
  | String _ _, EmptyString => false
  end.

(** The byte occurs in the string. *)
Fixpoint contains (c : ascii) (s : string) : bool :=
  match s with
  | EmptyString => false
  | String d r => (Ascii.eqb d c || contains c r)%bool
  end.

(** [s[n:]] *)
Fixpoint drop (n : nat) (s : string) : string :=
  match n, s with
  | S n', String _ r => drop n' r
  | _, _ => s
  end.

(** The one replacement [strings.Replace(s, old, new, 1)] makes: at the
    first index where [old] occurs; the empty [old] occurs at index 0. *)
Fixpoint replace_first (old new s : string) : string :=
  if HasPrefix s old then new ++ drop (String.length old) s
  else match s with
       | EmptyString => EmptyString
       | String c r => String c (replace_first old new r)
       end.

(** [strings.Replace(s, old, new, 1)]: nothing to do when [old == new]. *)
Definition Replace1 (s old new : string) : string :=
  if String.eqb old new then s else replace_first old new s.

(** [Shorten] shortens a path using the tilde.  The error of
    [os.UserHomeDir] is dropped, the returned string is used as it is. *)
Definition Shorten (os : OS) (path : string) : string :=
  let homeDir := fst (UserHomeDir os) in
  if HasPrefix path homeDir then Replace1 path homeDir "~" else path.

Definition CheckFileExists (os : OS) (errno : Errno) (file : string)
  : bool * error :=
  match Stat os file with
  | inl info =>
      if IsDir info
      then (false, Some (errorString (Sprintf "'%s' is a directory" [fmt_s file])))
      else (true, nil)
  | inr e =>
      if IsNotExist errno e then (false, nil) else (false, Some e)
  end.

(** Check if the given path is a symlink: bit [os.ModeSymlink] (bit 27) of
    the mode that [os.Lstat] reports. *)
Definition ModeSymlink : Z := Z.shiftl 1 27.

Definition IsSymlink (lstat : string -> Z + err) (path : string)
  : bool * error :=
  match lstat path with
  | inr e => (false, Some e)
  | inl mode => (Z.eqb (Z.land mode ModeSymlink) ModeSymlink, nil)
  end.

(** *** A file system that changes

    [MkDir] writes to the disk, so the calls it makes are functions of a
    state [S]: the state after the call and the answer. *)
Record Disk (S : Type) : Type := {
  disk_Stat : S -> string -> FileInfo + err;   (* os.Stat *)
  disk_Create : S -> string -> S * error;      (* os.Create, then Close *)
  disk_Remove : S -> string -> S * error;      (* os.Remove *)
  disk_MkdirAll : S -> string -> S * error     (* os.MkdirAll(dir, 0775) *)
}.
Arguments disk_Stat {S} _ _ _.
Arguments disk_Create {S} _ _ _.
Arguments disk_Remove {S} _ _ _.
Arguments disk_MkdirAll {S} _ _ _.

(** [fmt.Errorf] with one operand: an error whose message is the formatted
    string ([%w] prints its operand as [%s] does). *)
Definition Errorf (format operand : string) : error :=
  Some (errorString (Sprintf format [operand])).

(** [MkDir] checks that a directory is writable by the current user, or
    creates it when it does not exist.  [path.Join] is [filepath.Join] on
    Unix. *)
Definition MkDir {S : Type} (disk : Disk S) (errno : Errno) (s : S)
    (dir : string) : S * error :=
  match disk_Stat disk s dir with
  | inl _ =>
      (* dir exists, make sure we can write to it *)
      let testfile := Join [dir; "test"] in
      match disk_Create disk s testfile with
      | (s1, Some e) =>
          if IsPermission errno e
          then (s1, Errorf "%s is not writeable by the current user" (fmt_s dir))
          else (s1, Errorf
                      "unexpected error while checking writeablility of repo root: %s"
                      (Error e))
      | (s1, None) => disk_Remove disk s1 testfile
      end
  | inr e =>
      if IsNotExist errno e then
        (* dir doesnt exist, create it *)
        disk_MkdirAll disk s dir
      else if IsPermission errno e then
        (s, Errorf "cannot write to %s, incorrect permissions" (Error e))
      else (s, Some e)
  end.

Definition MkGosukiDataDir {S : Type} (os : OS) (disk : Disk S)
    (errno : Errno) (s : S) : S * error :=
  match GetDataDir os with
  | (_, Some e) => (s, Some e)
  | (dataDir, None) => MkDir disk errno s dataDir
  end.

(** What [os.Remove] means: after a successful removal, [os.Stat] finds
    nothing at the path. *)
Definition removal_removes {S : Type} (disk : Disk S) : Prop :=
  forall s path s',
    disk_Remove disk s path = (s', nil) ->
    exists e, disk_Stat disk s' path = inr e.

(** *** A disk for the examples: a table of paths *)

Definition table : Type := list (string * Machine.node).

Definition enoent (op path : string) : err :=
  PathError op path "no such file or directory".

Definition table_Stat (t : table) (path : string) : FileInfo + err :=
  match Machine.lookup path t with
  | Some Machine.Dir => inl {| IsDir := true |}
  | Some _ => inl {| IsDir := false |}
  | None => inr (enoent "stat" path)
  end.

Definition without (path : string) (t : table) : table :=
  filter (fun entry => negb (String.eqb (fst entry) path)) t.

Definition on_table : Disk table :=
  {| disk_Stat := table_Stat;
     disk_Create := fun t path =>
       match Machine.lookup path t with
       | Some Machine.Dir =>
           (t, Some (PathError "open" path "is a directory"))
       | _ => ((path, Machine.File) :: without path t, nil)
       end;
     disk_Remove := fun t path =>
       match Machine.lookup path t with
       | Some _ => (without path t, nil)
       | None => (t, Some (enoent "remove" path))
       end;
     disk_MkdirAll := fun t path =>
       match Machine.lookup path t with
       | Some Machine.Dir => (t, nil)
       | Some _ => (t, Some (PathError "mkdir" path "not a directory"))
       | None => ((path, Machine.Dir) :: t, nil)
       end |}.

Definition unix_errno : Errno :=
  {| IsNotExist := fun e =>
       match e with
       | PathError _ _ msg => String.eqb msg "no such file or directory"
       | _ => false
       end;
     IsPermission := fun e =>
       match e with
       | PathError _ _ msg => String.eqb msg "permission denied"
       | _ => false
       end |}.

(** A repository directory that holds a file named [test]. *)
Definition repo : table :=
  [("/srv/repo", Machine.Dir); ("/srv/repo/test", Machine.File);
   ("/srv/repo/gosuki.db", Machine.File)].

End Files.

(** ** The browser registry of [pkg/browsers]

    The generated file declares the package variable [DefinedBrowsers] and
    the functions [Defined] and [AddBrowserDef]; the variable is passed in
    and out. *)

Module Registry.

Import Browsers.

Definition family_eqb (a b : BrowserFamily) : bool :=
  match a, b with
  | Mozilla, Mozilla | ChromeBased, ChromeBased | Qutebrowser, Qutebrowser => true
  | _, _ => false
  end.

(** A Go [map[string]BrowserDef]: at most one entry per key. *)
Definition flavours : Type := list (string * BrowserDef).

(** [m[k]] with the comma-ok form. *)
Fixpoint get (m : flavours) (k : string) : option BrowserDef :=
  match m with
  | [] => None
  | (k', v) :: rest => if String.eqb k k' then Some v else get rest k
  end.

(** [m[k] = v] *)
Fixpoint put (m : flavours) (k : string) (v : BrowserDef) : flavours :=
  match m with
  | [] => [(k, v)]
  | (k', v') :: rest =>
      if String.eqb k k' then (k, v) :: rest else (k', v') :: put rest k v
  end.

Definition Defined (DefinedBrowsers : list BrowserDef) (family : BrowserFamily)
  : flavours :=
  fold_left
    (fun result bd =>
       if family_eqb (Family bd) family then put result (Flavour bd) bd
       else result)
    DefinedBrowsers [].

Definition AddBrowserDef (DefinedBrowsers : list BrowserDef) (b : BrowserDef)
  : list BrowserDef :=
  DefinedBrowsers ++ [b].

(** The definition selected by a family and a flavour. *)
Definition selects (family : BrowserFamily) (flavour : string) (b : BrowserDef)
  : bool :=
  (family_eqb (Family b) family && String.eqb flavour (Flavour b))%bool.

End Registry.

(** ** More of [pkg/database]: connections and drivers *)

Module Connections.

Import Database.

Local Open Scope string_scope.

(** What the database library answers, from a state [S] of its own:
    [Close] and [Exec] of a handle. *)
Record Library (S : Type) : Type := {
  lib_Close : S -> sqlxDB -> S * error;
  lib_Exec : S -> sqlxDB -> string -> S * error
}.
Arguments lib_Close {S} _ _ _.
Arguments lib_Exec {S} _ _ _ _.

Definition nil_dereference : string :=
  "runtime error: invalid memory address or nil pointer dereference".

(** [db.Close()]: the receiver is not changed, the handle stays in place. *)
Definition Close {S : Type} (lib : Library S) (s : S) (db : DB)
  : S * DB * error :=
  match Handle db with
  | None => (s, db, nil)
  | Some h =>
      let '(s', err) := lib_Close lib s h in
      (s', db, err)
  end.

Definition attached (db : DB) (name : string) : DB :=
  {| Name := Name db; Path := Path db; Handle := Handle db;
     EngineMode := EngineMode db;
     AttachedTo := (AttachedTo db ++ [name])%list;
     Typ := Typ db; filePath := filePath db; SQLXOpener := SQLXOpener db;
     LockChecker := LockChecker db |}.

(** [db.Attach(attached)]; a receiver without handle makes [Exec] dereference
    a nil pointer. *)
Definition Attach {S : Type} (lib : Library S) (s : S) (db other : DB)
  : outcome (S * DB * error) :=
  let stmtStr :=
    Sprintf "ATTACH DATABASE '%s' AS '%s'"
      [fmt_s (Path other); fmt_s (Name other)] in
  match Handle db with
  | None => Panic nil_dereference
  | Some h =>
      match lib_Exec lib s h stmtStr with
      | (s', Some e) => Ret (s', db, Some e)
      | (s', None) => Ret (s', attached db (Name other), nil)
      end
  end.

(** Attach several databases in turn, whatever each call answers. *)
Fixpoint attach_all {S : Type} (lib : Library S) (s : S) (db : DB)
    (others : list DB) : outcome (S * DB * list error) :=
  match others with
  | [] => Ret (s, db, [])
  | other :: rest =>
      '(s1, db1, err) <- Attach lib s db other ;;
      '(s2, db2, errs) <- attach_all lib s1 db1 rest ;;
      Ret (s2, db2, err :: errs)
  end.

(** The names of the databases whose [Attach] returned no error. *)
Fixpoint succeeded (others : list DB) (errs : list error) : list string :=
  match others, errs with
  | other :: rest, None :: errs' => Name other :: succeeded rest errs'
  | _ :: rest, Some _ :: errs' => succeeded rest errs'
  | _, _ => []
  end.

(** *** The connections kept for the backup

    The package variable [_sql3BackupConns]; a connection is named by a
    number. *)
Definition backup_conns : Type := list nat.

(** The [ConnectHook] of the driver registered as [DriverBackupMode]. *)
Definition BackupConnectHook (conns : backup_conns) (conn : nat)
  : backup_conns * error :=
  ((conns ++ [conn])%list, nil).

(** [flushSqliteCon(con)]: [con] is closed, its error dropped, and the last
    connection of the list is forgotten; [s[:len(s)-1]] of an empty slice
    panics. *)
Definition flushSqliteCon {S : Type} (lib : Library S) (s : S)
    (conns : backup_conns) (con : sqlxDB) : outcome (S * backup_conns) :=
  let '(s', _) := lib_Close lib s con in
  match conns with
  | [] => Panic "runtime error: slice bounds out of range [:-1]"
  | _ :: _ => Ret (s', removelast conns)
  end.

Fixpoint flush_all {S : Type} (lib : Library S) (s : S)
    (conns : backup_conns) (cons : list sqlxDB) : outcome (S * backup_conns) :=
  match cons with
  | [] => Ret (s, conns)
  | con :: rest =>
      '(s1, conns1) <- flushSqliteCon lib s conns con ;;
      flush_all lib s1 conns1 rest
  end.

(** *** Drivers *)

Inductive Driver : Type :=
| DefaultDriver    (* its hook registers the SQL functions *)
| BackupDriver.    (* its hook records the connection *)

(** The driver table of [database/sql]. *)
Definition drivers : Type := list (string * Driver).

Definition registered (ds : drivers) (name : string) : bool :=
  existsb (String.eqb name) (map fst ds).

(** [sql.Register(name, driver)] panics when the name is taken. *)
Definition sql_Register (ds : drivers) (name : string) (d : Driver)
  : outcome drivers :=
  if registered ds name
  then Panic ("sql: Register called twice for driver " ++ name)
  else Ret ((name, d) :: ds).

Definition RegisterSqliteHooks (ds : drivers) : outcome drivers :=
  ds1 <- sql_Register ds DriverDefault DefaultDriver ;;
  sql_Register ds1 DriverBackupMode BackupDriver.

(** The text that [SQLxxHash] returns, read as a number again
    ([strconv.ParseUint(s, 10, 64)] without its range check). *)
Definition parse_decimal (s : string) : option Z :=
  option_map (fun d => Z.of_N (N.of_uint d)) (NilEmpty.uint_of_string s).

(** The fields that [Init] leaves alone. *)
Definition same_fields (db1 db : DB) : Prop :=
  Name db1 = Name db /\ Path db1 = Path db
  /\ EngineMode db1 = EngineMode db /\ AttachedTo db1 = AttachedTo db
  /\ Typ db1 = Typ db /\ filePath db1 = filePath db
  /\ LockChecker db1 = LockChecker db.

(** The lock probe passes and the database opens. *)
Definition quiet : SqlEnv :=
  {| sqlx_Open := fun driver dsn =>
       inl {| driverName := driver; dataSourceName := dsn |};
     Ping := fun _ => nil;
     VFSLocked := fun _ => (false, nil) |}.

(** A library that refuses to attach a database twice. *)
Definition strict : Library (list string) :=
  {| lib_Close := fun s _ => (s, nil);
     lib_Exec := fun s _ stmt =>
       if existsb (String.eqb stmt) s
       then (s, Some (errorString "database is already in use"))
       else (stmt :: s, nil) |}.

End Connections.

(** ** [NewDB] with DSN options, and [net/url]'s query encoding *)

Module Dsn.

Import Utils Database.

Local Open Scope string_scope.

(** [upperhex[n]] *)
Definition upperhex (n : N) : ascii :=
  nth (N.to_nat n)
    ["0"; "1"; "2"; "3"; "4"; "5"; "6"; "7"; "8"; "9";
     "A"; "B"; "C"; "D"; "E"; "F"]%char "0"%char.

(** [shouldEscape(c, encodeQueryComponent)]: everything but the unreserved
    characters of RFC 3986. *)
Definition shouldEscape (c : ascii) : bool :=
  negb (in_range "a" "z" c || in_range "A" "Z" c || in_range "0" "9" c
        || existsb (Ascii.eqb c) ["-"; "_"; "."; "~"]%char).

Definition escape_byte (c : ascii) : string :=
  if shouldEscape c then
    if Ascii.eqb c " " then "+"
    else String "%"
           (String (upperhex (N.shiftr (N_of_ascii c) 4))
              (String (upperhex (N.land (N_of_ascii c) 15)) EmptyString))
  else String c EmptyString.

(** [url.QueryEscape] *)
Fixpoint QueryEscape (s : string) : string :=
  match s with
  | EmptyString => EmptyString
  | String c r => escape_byte c ++ QueryEscape r
  end.

(** A [url.Values] that is only written with [Set]: one value per key.  The
    entries are kept in the order of their keys, the order in which
    [Encode] writes them. *)
Definition Values : Type := list (string * string).

(** [v.Set(key, value)] *)
Fixpoint Set_ (v : Values) (key value : string) : Values :=
  match v with
  | [] => [(key, value)]
  | (k, x) :: rest =>
      match String.compare key k with
      | Eq => (key, value) :: rest
      | Lt => (key, value) :: v
      | Gt => (k, x) :: Set_ rest key value
      end
  end.

(** [v.Get(key)], with whether the key is there *)
Fixpoint Get (v : Values) (key : string) : option string :=
  match v with
  | [] => None
  | (k, x) :: rest => if String.eqb key k then Some x else Get rest key
  end.

(** [v.Encode()]: [key=value] pairs, escaped, sorted by key, joined by an
    ampersand. *)
Definition Encode (v : Values) : string :=
  String.concat "&"
    (map (fun kv => QueryEscape (fst kv) ++ "=" ++ QueryEscape (snd kv)) v).

(** A [DsnOptions] map, as the entries that ranging over it yields. *)
Definition DsnOptions : Type := list (string * string).

(** The two nested loops of [NewDB] that fill [dsn]. *)
Definition collect (opts : list DsnOptions) : Values :=
  fold_left
    (fun dsn o => fold_left (fun dsn kv => Set_ dsn (fst kv) (snd kv)) o dsn)
    opts [].

(** [NewDB(name, dbPath, dbFormat, opts...)] *)
Definition NewDBOpts (name dbPath dbFormat : string) (opts : list DsnOptions)
  : DB :=
  let '(path, dbType) :=
    if String.eqb dbPath ""
    then (Sprintf dbFormat [fmt_s name], DBTypeInMemory)
    else (Sprintf dbFormat [fmt_s dbPath], DBTypeRegularFile) in
  let path :=
    if Nat.ltb 0 (List.length opts) then
      let dsn := collect opts in
      (* Test if path has already query params *)
      match find_byte "?" path with
      | Some (S _) => Sprintf "%s&%s" [fmt_s path; fmt_s (Encode dsn)]
      | _ => Sprintf "%s?%s" [fmt_s path; fmt_s (Encode dsn)]
      end
    else path in
  {| Name := name; Path := path; Handle := None;
     EngineMode := DriverDefault; AttachedTo := [];
     Typ := dbType; filePath := dbPath; SQLXOpener := None;
     LockChecker := dbPath |}.

(** [DBTypeFileDSN] *)
Definition DBTypeFileDSN : string := "file:%s".

(** The keys of a [Values] increase strictly. *)
Definition key_lt (p q : string * string) : Prop :=
  String.compare (fst p) (fst q) = Lt.

Definition by_key (v : Values) : Prop := StronglySorted key_lt v.

(** Two option maps with the same entries, ranged over in another order. *)
Definition same_map (o o' : DsnOptions) : Prop :=
  NoDup (map fst o) /\ Permutation o o'.

(** The number of times a byte occurs. *)
Fixpoint count (c : ascii) (s : string) : nat :=
  match s with
  | EmptyString => 0
  | String d r => (if Ascii.eqb d c then 1 else 0) + count c r
  end.

End Dsn.

(** * Properties *)

(** ** Sanity checks of the library models *)

Module Library.

Import Utils.

Example Clean_examples :
  map Clean ["a//b"; "a/./b/"; "a/../b"; "/../a"; "../../a"; ""; "//"]
  = ["a/b"; "a/b"; "b"; "/a"; "../../a"; "."; "/"].
Proof. reflexivity. Qed.

Example Join_examples :
  map Join [[]; [""]; [""; ""]; ["a"; "b"]; [""; "a"]; ["/home/u"; ".local"; "share"]]
  = [""; ""; ""; "a/b"; "a"; "/home/u/.local/share"].
Proof. reflexivity. Qed.

Example Expand_examples :
  map (fun s => Expand s (Machine.getenv [("HOME", "/home/u")]))
      ["$HOME/a"; "${HOME}/a"; "$UNSET"; "a$"; "${}x"; "$/a"; "${HOME"]
  = ["/home/u/a"; "/home/u/a"; ""; "a$"; "x"; "$/a"; "HOME"].
Proof. reflexivity. Qed.

(** The published XXH64 test vectors (seed 0), among them a 63-byte input
    that goes through every loop. *)
Example ChecksumString64_vectors :
  map XXHash.ChecksumString64
      [""; "a"; "as"; "asd"; "asdf";
       "Call me Ishmael. Some years ago--never mind how long precisely-"]
  = [0xef46db3751d8e999; 0xd24ec4f1a98c6e5b; 0x1c330fb2d66be179;
     0x631c37ce72a97393; 0x415872f599cea71e; 0x02a2e85470d6fd96]%Z.
Proof. vm_compute. reflexivity. Qed.

End Library.

(** ** [internal/utils] *)

Module UtilsProps.

Import Utils Machine Spec.

Lemma index0_nonempty (s : string) :
  s <> EmptyString -> exists c r, s = String c r /\ index0 s = Ret c.
Proof. destruct s as [|c r]; [congruence | eauto]. Qed.

Lemma tilde_eqb (homedir : string) (c : ascii) (r : string) :
  (if Ascii.eqb c "~" then Join [homedir; slice1 (String c r)] else String c r)
  = tilde homedir (String c r).
Proof.
  destruct (Ascii.eqb_spec c "~") as [-> | Hc]; [reflexivity |].
  destruct c as [[] [] [] [] [] [] [] []]; try reflexivity.
  congruence.
Qed.

Lemma ExpandEnv_empty (os : OS) : ExpandEnv os (Join [EmptyString]) = EmptyString.
Proof. reflexivity. Qed.

(** [ExpandPath] on an argument list that expands to a non-empty path. *)
Lemma ExpandPath_returns (os : OS) (paths : list string) :
  paths <> [] ->
  ExpandEnv os (Join paths) <> EmptyString ->
  ExpandPath os paths
  = match UserHomeDir os with
    | (_, Some e) => Ret (EmptyString, Some e)
    | (homedir, None) => Ret (EvalSymlinks os (expansion os homedir paths))
    end.
Proof.
  intros Hpaths Hpath.
  destruct paths as [|p ps]; [congruence |].
  unfold ExpandPath, expansion. cbn [List.length Nat.eqb].
  destruct (index0_nonempty _ Hpath) as (c & r & Hs & Hc).
  rewrite Hc, Hs. cbn [bind].
  destruct (UserHomeDir os) as [homedir [e|]]; [reflexivity |].
  rewrite tilde_eqb. reflexivity.
Qed.

(** [ExpandOnly] likewise. *)
Lemma ExpandOnly_returns (os : OS) (paths : list string) :
  paths <> [] ->
  ExpandEnv os (Join paths) <> EmptyString ->
  ExpandOnly os paths
  = if String.eqb (hd EmptyString paths) ""
    then Ret (EmptyString, no_path_provided)
    else match UserHomeDir os with
         | (_, Some e) => Ret (EmptyString, Some e)
         | (homedir, None) => Ret (expansion os homedir paths, nil)
         end.
Proof.
  intros Hpaths Hpath.
  destruct paths as [|p ps]; [congruence |].
  unfold ExpandOnly, expansion. cbn [List.length Nat.eqb hd].
  destruct (index0_nonempty _ Hpath) as (c & r & Hs & Hc).
  rewrite Hc, Hs. cbn [bind].
  destruct (UserHomeDir os) as [homedir [e|]].
  - destruct p; reflexivity.
  - rewrite tilde_eqb. destruct p; reflexivity.
Qed.

(** C9.  [ExpandPath] only guards against an empty argument list.  With a
    resolvable home directory, the argument list made of one empty string
    expands to the empty path, [path[0]] is out of range and the call
    panics; [ExpandOnly] returns the error "no path provided" for the same
    input. *)
Theorem ExpandPath_empty_string_panics (os : OS) (homedir : string) :
  UserHomeDir os = (homedir, nil) ->
  ExpandPath os [] = Ret (EmptyString, no_path_provided)
  /\ ExpandEnv os (Join [EmptyString]) = EmptyString
  /\ ExpandPath os [EmptyString]
     = Panic "runtime error: index out of range [0] with length 0"
  /\ ExpandOnly os [EmptyString] = Ret (EmptyString, no_path_provided).
Proof.
  intros Hhome. repeat split.
  unfold ExpandPath. cbn [List.length Nat.eqb]. rewrite Hhome.
  rewrite ExpandEnv_empty. reflexivity.
Qed.

Lemma ExpandPath_empty_string_panics_laptop :
  UserHomeDir laptop = ("/home/u", nil)
  /\ ExpandPath laptop [EmptyString]
     = Panic "runtime error: index out of range [0] with length 0"
  /\ ExpandOnly laptop [EmptyString] = Ret (EmptyString, no_path_provided).
Proof.
  split; [reflexivity |].
  apply (ExpandPath_empty_string_panics laptop "/home/u"). reflexivity.
Defined.

(** C7, as stated, fails twice.  Without a home directory [ExpandPath]
    returns the lookup error for a path that needs no home directory, and a
    non-empty argument that expands to the empty string makes both functions
    panic. *)
Lemma ExpandPath_nonempty_argument_counterexample :
  ExpandPath daemon ["/tmp"]
    = Ret (EmptyString, Some (errorString "$HOME is not defined"))
  /\ ExpandPath daemon ["/tmp"]
     <> Ret (EvalSymlinks daemon (expansion daemon EmptyString ["/tmp"]))
  /\ ExpandPath laptop ["$GOSUKI_UNSET"]
     = Panic "runtime error: index out of range [0] with length 0"
  /\ ExpandPath laptop ["$GOSUKI_UNSET"]
     <> Ret (EvalSymlinks laptop (expansion laptop "/home/u" ["$GOSUKI_UNSET"]))
  /\ ExpandOnly laptop ["$GOSUKI_UNSET"]
     <> Ret (expansion laptop "/home/u" ["$GOSUKI_UNSET"], nil).
Proof. repeat split; try reflexivity; vm_compute; discriminate. Qed.

(** C7, amended.  For a non-empty argument list whose joined and
    environment-expanded path is not empty: when the home directory cannot
    be determined both functions return that error; otherwise [ExpandPath]
    returns [filepath.EvalSymlinks] of the expanded path with a leading
    tilde replaced by the home directory, and [ExpandOnly] returns that path
    itself, unless its first argument is empty. *)
Theorem ExpandPath_expands (os : OS) (paths : list string) :
  paths <> [] ->
  ExpandEnv os (Join paths) <> EmptyString ->
  ExpandPath os paths
  = match UserHomeDir os with
    | (_, Some e) => Ret (EmptyString, Some e)
    | (homedir, None) => Ret (EvalSymlinks os (expansion os homedir paths))
    end
  /\ ExpandOnly os paths
     = if String.eqb (hd EmptyString paths) ""
       then Ret (EmptyString, no_path_provided)
       else match UserHomeDir os with
            | (_, Some e) => Ret (EmptyString, Some e)
            | (homedir, None) => Ret (expansion os homedir paths, nil)
            end.
Proof.
  intros Hpaths Hpath. split.
  - apply ExpandPath_returns; assumption.
  - apply ExpandOnly_returns; assumption.
Qed.

Lemma ExpandPath_expands_snap_firefox :
  ["~/snap/firefox"; "common/.mozilla/firefox"] <> []
  /\ ExpandEnv laptop (Join ["~/snap/firefox"; "common/.mozilla/firefox"])
     <> EmptyString
  /\ ExpandPath laptop ["~/snap/firefox"; "common/.mozilla/firefox"]
     = Ret ("/data/firefox", nil)
  /\ ExpandOnly laptop ["~/snap/firefox"; "common/.mozilla/firefox"]
     = Ret ("/home/u/snap/firefox/common/.mozilla/firefox", nil).
Proof.
  assert (H1 : ["~/snap/firefox"; "common/.mozilla/firefox"] <> [])
    by discriminate.
  assert (H2 : ExpandEnv laptop
                 (Join ["~/snap/firefox"; "common/.mozilla/firefox"])
               <> EmptyString) by (vm_compute; discriminate).
  split; [exact H1 |]. split; [exact H2 |].
  exact (ExpandPath_expands laptop _ H1 H2).
Defined.


(** The two functions panic exactly when the home directory is known and
    the joined, environment-expanded path is empty ([ExpandOnly]: and the
    first argument is not empty). *)
Theorem expansion_panics_exactly (os : OS) (paths : list string) :
  ((exists msg, ExpandPath os paths = Panic msg) <->
   paths <> [] /\ snd (UserHomeDir os) = nil
   /\ ExpandEnv os (Join paths) = EmptyString)
  /\ ((exists msg, ExpandOnly os paths = Panic msg) <->
      paths <> [] /\ hd EmptyString paths <> EmptyString
      /\ snd (UserHomeDir os) = nil
      /\ ExpandEnv os (Join paths) = EmptyString).
Proof.
  unfold ExpandPath, ExpandOnly.
  destruct paths as [|p ps]; cbn [List.length Nat.eqb hd].
  - split; split; try (intros [msg H]; discriminate H);
      intros [H _]; congruence.
  - destruct (UserHomeDir os) as [homedir [e|]]; cbn [snd].
    + split; split; try (intros (_ & H & _); discriminate H);
        try (intros (_ & _ & H & _); discriminate H).
      * intros [msg H]; discriminate H.
      * intros [msg H]. destruct p; discriminate H.
    + destruct (ExpandEnv os (Join (p :: ps))) as [|c r] eqn:E; cbn [index0 bind].
      * split; split.
        -- intros _. split; [discriminate | split; reflexivity].
        -- intros _. eauto.
        -- intros [msg H]. destruct p as [|a p]; [discriminate H |].
           split; [discriminate |]. split; [discriminate |]. split; reflexivity.
        -- intros (_ & Hp & _). destruct p as [|a p]; [congruence |].
           cbn. eauto.
      * split; split; try (intros [msg H]; try destruct p; discriminate H).
        -- intros (_ & _ & H); discriminate H.
        -- intros (_ & _ & _ & H); discriminate H.
Qed.
End UtilsProps.

(** ** [pkg/browsers] *)

Module BrowsersProps.

Import Utils Browsers Machine Spec Installed.

Lemma DirExists_is_directoryb (os : OS) (path : string) :
  fst (DirExists os path) = is_directoryb os path.
Proof.
  unfold DirExists, is_directoryb.
  destruct (Stat os path) as [info | e]; reflexivity.
Qed.

Lemma is_directoryb_spec (os : OS) (path : string) :
  is_directoryb os path = true <-> is_directory os path.
Proof.
  unfold is_directoryb, is_directory. split.
  - destruct (Stat os path) as [info | e]; [| discriminate].
    intros H. exists info. split; [reflexivity | exact H].
  - intros (info & -> & H). exact H.
Qed.

Lemma usableb_spec (os : OS) (dir : string) :
  usableb os dir = true <-> usable os dir.
Proof.
  unfold usableb, usable, expands_to_directory. split.
  - intros H. apply andb_true_iff in H. destruct H as [Hne Hdir]. split.
    + intros ->. discriminate.
    + destruct (ExpandOnly os [dir]) as [[path [e|]]|]; try discriminate.
      exists path. split; [reflexivity |]. apply is_directoryb_spec, Hdir.
  - intros (Hne & path & -> & Hdir). apply andb_true_iff. split.
    + apply negb_true_iff, String.eqb_neq, Hne.
    + apply is_directoryb_spec, Hdir.
Qed.

(** The test [dir != "" && isValidDir(dir, ptype)] of the source, when the
    expansion of [dir] is not empty. *)
Lemma isValidDir_usableb (os : OS) (dir ptype : string) :
  expands_nonempty os dir ->
  nonempty_and dir (isValidDir os dir ptype) = Ret (usableb os dir).
Proof.
  intros Hexp. unfold nonempty_and, isValidDir, usableb.
  destruct (String.eqb_spec dir "") as [-> | Hdir]; [reflexivity |].
  destruct Hexp as [-> | Hexp]; [congruence |].
  rewrite (UtilsProps.ExpandOnly_returns os [dir]) by (discriminate || exact Hexp).
  cbn [hd]. destruct (String.eqb_spec dir "") as [-> | _]; [congruence |].
  cbn [negb andb].
  destruct (UserHomeDir os) as [homedir [e|]]; cbn [bind]; [reflexivity |].
  rewrite <- DirExists_is_directoryb.
  destruct (DirExists os _) as [ok e]. reflexivity.
Qed.

Lemma GetBaseDir_effective (os : OS) (b : BrowserDef) :
  expands_nonempty os (FlatpakDir b) ->
  (usableb os (FlatpakDir b) = false -> expands_nonempty os (SnapDir b)) ->
  GetBaseDir os b = Ret (effective_base_dir os b).
Proof.
  intros Hflat Hsnap. unfold GetBaseDir, effective_base_dir.
  rewrite isValidDir_usableb by exact Hflat. cbn [bind].
  destruct (usableb os (FlatpakDir b)); [reflexivity |].
  rewrite isValidDir_usableb by (apply Hsnap; reflexivity). cbn [bind].
  destruct (usableb os (SnapDir b)); reflexivity.
Qed.

Lemma ExpandBaseDir_effective (os : OS) (b : BrowserDef) :
  expands_nonempty os (FlatpakDir b) ->
  (usableb os (FlatpakDir b) = false -> expands_nonempty os (SnapDir b)) ->
  ExpandBaseDir os b = ExpandPath os [effective_base_dir os b].
Proof.
  intros Hflat Hsnap. unfold ExpandBaseDir, effective_base_dir.
  rewrite isValidDir_usableb by exact Hflat. cbn [bind].
  destruct (usableb os (FlatpakDir b)); [reflexivity |].
  rewrite isValidDir_usableb by (apply Hsnap; reflexivity). cbn [bind].
  destruct (usableb os (SnapDir b)); reflexivity.
Qed.

(** When [ExpandBaseDir] returns, so does [GetBaseDir]: they run the same
    tests. *)
Lemma GetBaseDir_returns (os : OS) (b : BrowserDef) (r : string * error) :
  ExpandBaseDir os b = Ret r -> exists dir, GetBaseDir os b = Ret dir.
Proof.
  unfold ExpandBaseDir, GetBaseDir.
  destruct (nonempty_and (FlatpakDir b) _) as [[|]|msg]; cbn [bind];
    [eauto | | discriminate].
  destruct (nonempty_and (SnapDir b) _) as [[|]|msg]; cbn [bind];
    [eauto | eauto | discriminate].
Qed.

(** What [Detect] answers once [ExpandBaseDir] has returned. *)
Lemma Detect_returns (os : OS) (b : BrowserDef) (dir : string) (err : error) :
  ExpandBaseDir os b = Ret (dir, err) ->
  Detect os b
  = Ret match err with
        | Some _ => true
        | None => is_directoryb os dir
        end.
Proof.
  intros H. unfold Detect. rewrite H. cbn [bind].
  destruct err as [e|].
  - destruct (GetBaseDir_returns _ _ _ H) as [d ->]. reflexivity.
  - unfold is_directoryb, DirExists.
    destruct (Stat os dir) as [[[|]] | e]; reflexivity.
Qed.


(** What the functions answer for four browsers on [laptop], where Firefox
    (flatpak) and Chromium are installed, LibreWolf is not, and the
    qutebrowser directory is a regular file. *)
Example browsers_on_laptop :
  map (GetBaseDir laptop) [firefox; librewolf; chromium; qutebrowser]
  = [Ret "~/.var/app/org.mozilla.firefox/.mozilla/firefox";
     Ret "~/.librewolf"; Ret "~/.config/chromium";
     Ret "~/.config/qutebrowser"]
  /\ map (Detect laptop) [firefox; librewolf; chromium; qutebrowser]
     = [Ret true; Ret true; Ret true; Ret false].
Proof. split; reflexivity. Qed.

(** [Detect] answers true whenever the expansion of the base directory
    fails. *)
Lemma Detect_true_when_expansion_fails
    (os : OS) (b : BrowserDef) (dir : string) (e : err) :
  ExpandBaseDir os b = Ret (dir, Some e) -> Detect os b = Ret true.
Proof. intros H. rewrite (Detect_returns _ _ _ _ H). reflexivity. Qed.

(** C1, the failing input.  LibreWolf is not installed on [laptop]: its
    base directory does not exist, so [filepath.EvalSymlinks] fails and
    [ExpandBaseDir] returns an error.  [Detect] logs "skipping" and then
    returns true. *)
Theorem Detect_missing_browser :
  effective_base_dir laptop librewolf = "~/.librewolf"
  /\ ExpandBaseDir laptop librewolf
     = Ret (EmptyString,
            Some (PathError "lstat" "/home/u/.librewolf"
                    "no such file or directory"))
  /\ ~ is_directory laptop "/home/u/.librewolf"
  /\ Detect laptop librewolf = Ret true.
Proof.
  repeat split.
  intros (info & H & _). vm_compute in H. discriminate.
Qed.

(** C2, as stated, fails.  On a machine without a home directory
    [ExpandOnly] fails on every path, so a flatpak directory that is given
    by an absolute path and exists is passed over.  A flatpak directory
    whose expansion is the empty path makes [ExpandOnly], and with it
    [GetBaseDir] and [ExpandBaseDir], panic instead of falling back to the
    base directory. *)
Lemma base_dir_resolution_counterexample :
  (FlatpakDir packaged <> EmptyString
   /\ is_directory daemon (expansion daemon EmptyString [FlatpakDir packaged])
   /\ GetBaseDir daemon packaged = Ret (BaseDir packaged)
   /\ GetBaseDir daemon packaged <> Ret (FlatpakDir packaged))
  /\ (~ is_directory laptop
          (expansion laptop "/home/u" [FlatpakDir by_variable])
      /\ SnapDir by_variable = EmptyString
      /\ GetBaseDir laptop by_variable <> Ret (BaseDir by_variable)
      /\ GetBaseDir laptop by_variable
         = Panic "runtime error: index out of range [0] with length 0"
      /\ ExpandBaseDir laptop by_variable
         = Panic "runtime error: index out of range [0] with length 0").
Proof.
  split.
  - repeat split; try discriminate.
    exists {| IsDir := true |}. split; reflexivity.
  - repeat split; try discriminate.
    intros (info & H & _). vm_compute in H. discriminate.
Qed.

(** C2, amended.  A directory is usable when it is not empty, [ExpandOnly]
    expands it (which needs the home directory) and [os.Stat] reports a
    directory at the expanded path.  Provided the flatpak directory, and the
    snap directory when it is consulted, do not expand to the empty path:
    the flatpak directory is chosen when usable, otherwise the snap
    directory when usable, otherwise the base directory; [GetBaseDir]
    returns the chosen directory and [ExpandBaseDir] is [ExpandPath] of the
    same one. *)
Theorem base_dir_resolution_order (os : OS) (b : BrowserDef) :
  expands_nonempty os (FlatpakDir b) ->
  (usableb os (FlatpakDir b) = false -> expands_nonempty os (SnapDir b)) ->
  GetBaseDir os b = Ret (effective_base_dir os b)
  /\ ExpandBaseDir os b = ExpandPath os [effective_base_dir os b]
  /\ (usable os (FlatpakDir b) -> effective_base_dir os b = FlatpakDir b)
  /\ (~ usable os (FlatpakDir b) -> usable os (SnapDir b) ->
      effective_base_dir os b = SnapDir b)
  /\ (~ usable os (FlatpakDir b) -> ~ usable os (SnapDir b) ->
      effective_base_dir os b = BaseDir b).
Proof.
  intros Hflat Hsnap.
  split; [apply GetBaseDir_effective; assumption |].
  split; [apply ExpandBaseDir_effective; assumption |].
  unfold effective_base_dir. repeat split.
  - intros H. apply usableb_spec in H. rewrite H. reflexivity.
  - intros Hf Hs. apply usableb_spec in Hs. rewrite Hs.
    destruct (usableb os (FlatpakDir b)) eqn:E; [| reflexivity].
    apply usableb_spec in E. contradiction.
  - intros Hf Hs.
    destruct (usableb os (FlatpakDir b)) eqn:E.
    { apply usableb_spec in E. contradiction. }
    destruct (usableb os (SnapDir b)) eqn:E'; [| reflexivity].
    apply usableb_spec in E'. contradiction.
Qed.

Lemma base_dir_resolution_order_firefox_snap :
  expands_nonempty laptop (FlatpakDir firefox_snap)
  /\ (usableb laptop (FlatpakDir firefox_snap) = false ->
      expands_nonempty laptop (SnapDir firefox_snap))
  /\ GetBaseDir laptop firefox_snap
     = Ret "~/snap/firefox/common/.mozilla/firefox"
  /\ ExpandBaseDir laptop firefox_snap = Ret ("/data/firefox", nil).
Proof.
  assert (H1 : expands_nonempty laptop (FlatpakDir firefox_snap))
    by (left; reflexivity).
  assert (H2 : usableb laptop (FlatpakDir firefox_snap) = false ->
               expands_nonempty laptop (SnapDir firefox_snap))
    by (intros _; right; vm_compute; discriminate).
  split; [exact H1 |]. split; [exact H2 |].
  split.
  - exact (proj1 (base_dir_resolution_order laptop firefox_snap H1 H2)).
  - exact (proj1 (proj2 (base_dir_resolution_order laptop firefox_snap H1 H2))).
Defined.

(** Once [ExpandBaseDir] has returned, [Detect] answers true exactly when
    the expansion failed or [os.Stat] reports a directory at the expanded
    path. *)
Theorem Detect_answer (os : OS) (b : BrowserDef) (dir : string) (err : error) :
  ExpandBaseDir os b = Ret (dir, err) ->
  (Detect os b = Ret true <-> err <> nil \/ is_directory os dir)
  /\ (Detect os b = Ret false <-> err = nil /\ ~ is_directory os dir).
Proof.
  intros H. rewrite (Detect_returns _ _ _ _ H).
  destruct err as [e|].
  - split; split.
    + intros _. left. discriminate.
    + reflexivity.
    + discriminate.
    + intros [Hnil _]. discriminate Hnil.
  - destruct (is_directoryb os dir) eqn:E.
    + apply is_directoryb_spec in E. split; split.
      * intros _. right. exact E.
      * reflexivity.
      * discriminate.
      * intros [_ Hn]. contradiction.
    + assert (Hn : ~ is_directory os dir).
      { intros Hd. apply is_directoryb_spec in Hd. congruence. }
      split; split.
      * discriminate.
      * intros [Hnil | Hd]; [now contradiction Hnil | contradiction].
      * intros _. split; [reflexivity | exact Hn].
      * reflexivity.
Qed.

Lemma Detect_answer_qutebrowser :
  ExpandBaseDir laptop qutebrowser = Ret ("/home/u/.config/qutebrowser", nil)
  /\ Detect laptop qutebrowser = Ret false
  /\ ~ is_directory laptop "/home/u/.config/qutebrowser".
Proof.
  split; [reflexivity |]. split; [reflexivity |].
  exact (proj2 (proj1 (proj2 (Detect_answer laptop qutebrowser
                                "/home/u/.config/qutebrowser" nil eq_refl))
                  eq_refl)).
Defined.
End BrowsersProps.

(** ** [filepath.Clean] and [filepath.Join] *)

Module PathProps.

Import Utils Paths.

Local Open Scope string_scope.

Lemma Clean_render (path : string) :
  Clean path
  = render (rooted path) (fold_left (clean_step (rooted path)) (split "/" path) []).
Proof. reflexivity. Qed.

Lemma Clean_nonempty (path : string) : Clean path <> "".
Proof.
  unfold Clean. cbv zeta.
  match goal with |- (if String.eqb ?r "" then _ else _) <> _ =>
    destruct (String.eqb_spec r "") as [_ | H]; [discriminate | exact H] end.
Qed.

Lemma append_assoc (a b c : string) : (a ++ b) ++ c = a ++ (b ++ c).
Proof. induction a as [|x a IH]; cbn; [reflexivity | now rewrite IH]. Qed.

Lemma split_not_nil (sep : ascii) (s : string) : split sep s <> [].
Proof.
  destruct s as [|c r]; cbn; [discriminate |].
  destruct (Ascii.eqb c sep); [discriminate |].
  destruct (split sep r); discriminate.
Qed.

Lemma split_app_sep (a b : string) :
  split "/" (a ++ String "/" b) = (split "/" a ++ split "/" b)%list.
Proof.
  induction a as [|c a IH]; [reflexivity |].
  cbn [append split]. rewrite IH.
  destruct (Ascii.eqb c "/"); [reflexivity |].
  pose proof (split_not_nil "/" a) as Hne.
  destruct (split "/" a) as [|h t]; [congruence | reflexivity].
Qed.

Lemma split_plain (s : string) : has_slash s = false -> split "/" s = [s].
Proof.
  induction s as [|c r IH]; [reflexivity |].
  cbn [has_slash split]. intros H. apply orb_false_iff in H. destruct H as [Hc Hr].
  rewrite Hc, (IH Hr). reflexivity.
Qed.

Lemma split_concat (l : list string) :
  l <> [] ->
  Forall (fun c => has_slash c = false) l ->
  split "/" (String.concat "/" l) = l.
Proof.
  induction l as [|x l IH]; [congruence |]. intros _ Hall.
  inversion Hall as [|? ? Hx Hl]; subst.
  destruct l as [|y l]; [exact (split_plain x Hx) |].
  change (String.concat "/" (x :: y :: l))
    with (x ++ String "/" (String.concat "/" (y :: l))).
  rewrite split_app_sep, (split_plain x Hx), IH by (discriminate || exact Hl).
  reflexivity.
Qed.

Lemma split_slash_free (s : string) :
  Forall (fun c => has_slash c = false) (split "/" s).
Proof.
  induction s as [|c r IH]; [repeat constructor |].
  cbn [split]. destruct (Ascii.eqb c "/") eqn:Hc.
  - constructor; [reflexivity | exact IH].
  - destruct (split "/" r) as [|h t]; [repeat constructor; cbn; now rewrite Hc |].
    inversion IH; subst. constructor; [cbn; now rewrite Hc | assumption].
Qed.

Lemma clean_step_plain (r : bool) (out : list string) (c : string) :
  plain_element c -> clean_step r out c = c :: out.
Proof.
  intros (H1 & H2 & H3 & _). unfold clean_step.
  apply String.eqb_neq in H1, H2, H3. rewrite H1, H2, H3. reflexivity.
Qed.

Lemma clean_step_ok (r : bool) (out : list string) (c : string) :
  stack_ok r out -> has_slash c = false -> stack_ok r (clean_step r out c).
Proof.
  intros (normal & k & -> & Hn & Hk) Hc. unfold clean_step.
  destruct (String.eqb_spec c "") as [-> | H1]; [exists normal, k; auto |].
  destruct (String.eqb_spec c ".") as [-> | H2]; [exists normal, k; auto |].
  cbn [orb].
  destruct (String.eqb_spec c "..") as [-> | H3].
  - destruct normal as [|n ns].
    + cbn [app]. destruct k as [|k].
      * cbn [repeat]. destruct r.
        -- exists [], 0. auto.
        -- exists [], 1.
           split; [reflexivity | split; [constructor | discriminate]].
      * cbn [repeat]. cbn [String.eqb Ascii.eqb Bool.eqb].
        destruct r; [specialize (Hk eq_refl); discriminate |].
        exists [], (S (S k)).
        split; [reflexivity | split; [constructor | discriminate]].
    + cbn [app]. inversion Hn as [|? ? Hn1 Hns]; subst.
      destruct Hn1 as (_ & _ & Hdd & _). apply String.eqb_neq in Hdd.
      rewrite Hdd. exists ns, k. auto.
  - exists (c :: normal), k.
    split; [reflexivity | split; [| exact Hk]].
    constructor; [| exact Hn].
    split; [exact H1 | split; [exact H2 | split; [exact H3 | exact Hc]]].
Qed.

Lemma fold_clean_ok (r : bool) (l : list string) : forall out,
  Forall (fun c => has_slash c = false) l ->
  stack_ok r out ->
  stack_ok r (fold_left (clean_step r) l out).
Proof.
  induction l as [|c l IH]; intros out Hl Hout; [exact Hout |].
  inversion Hl; subst. cbn [fold_left].
  apply IH; [assumption | apply clean_step_ok; assumption].
Qed.

Lemma fold_clean_plain (r : bool) (l : list string) : forall acc,
  Forall plain_element l ->
  fold_left (clean_step r) l acc = (rev l ++ acc)%list.
Proof.
  induction l as [|c l IH]; intros acc Hl; [reflexivity |].
  inversion Hl; subst. cbn [fold_left rev].
  rewrite clean_step_plain, IH, <- app_assoc by assumption. reflexivity.
Qed.

Lemma fold_clean_dotdots (k : nat) : forall j,
  fold_left (clean_step false) (repeat ".." k) (repeat ".." j)
  = repeat ".." (k + j).
Proof.
  induction k as [|k IH]; intros j; [reflexivity |].
  cbn [repeat fold_left].
  replace (clean_step false (repeat ".." j) "..") with (repeat ".." (S j))
    by (destruct j; reflexivity).
  rewrite IH. f_equal. lia.
Qed.

Lemma rev_repeat {A : Type} (x : A) (k : nat) : rev (repeat x k) = repeat x k.
Proof.
  induction k as [|k IH]; [reflexivity |].
  cbn [repeat rev]. rewrite IH. symmetry. apply repeat_cons.
Qed.

(** Cleaning the elements of a cleaned path again changes nothing. *)
Lemma replay (r : bool) (out : list string) :
  stack_ok r out -> fold_left (clean_step r) (rev out) [] = out.
Proof.
  intros (normal & k & -> & Hn & Hk).
  rewrite rev_app_distr, rev_repeat, fold_left_app.
  assert (Hdots : fold_left (clean_step r) (repeat ".." k) [] = repeat ".." k).
  { destruct r.
    - rewrite (Hk eq_refl). reflexivity.
    - change (@Datatypes.nil string) with (repeat ".." 0).
      rewrite (fold_clean_dotdots k 0). f_equal. lia. }
  rewrite Hdots, fold_clean_plain by (apply Forall_rev; exact Hn).
  now rewrite rev_involutive.
Qed.

Lemma stack_ok_elements (r : bool) (out : list string) :
  stack_ok r out ->
  Forall (fun c => has_slash c = false /\ c <> "") out.
Proof.
  intros (normal & k & -> & Hn & _). apply Forall_app. split.
  - eapply Forall_impl; [| exact Hn]. intros c (H1 & _ & _ & H4). auto.
  - apply Forall_forall. intros c Hc. apply repeat_spec in Hc. subst.
    split; [reflexivity | discriminate].
Qed.

Lemma concat_head (x : string) (l : list string) :
  exists rest, String.concat "/" (x :: l) = x ++ rest.
Proof.
  destruct l as [|y l].
  - exists "". cbn. induction x as [|c x IH]; cbn; [reflexivity | now rewrite <- IH].
  - eexists. reflexivity.
Qed.

(** Splitting the rendered output and cleaning it gives the output back,
    and the rendered path is rooted exactly when the original was. *)
Lemma resplit (r : bool) (out : list string) :
  stack_ok r out ->
  fold_left (clean_step r) (split "/" (render r out)) [] = out
  /\ rooted (render r out) = r.
Proof.
  intros Hok. pose proof (stack_ok_elements r out Hok) as Hel.
  assert (Hfree : Forall (fun c => has_slash c = false) (rev out)).
  { apply Forall_rev. eapply Forall_impl; [| exact Hel]. now intros c [H _]. }
  unfold render. cbv zeta. destruct r.
  - cbn [String.eqb]. split; [| reflexivity].
    cbn [split Ascii.eqb Bool.eqb fold_left].
    change (clean_step true [] "") with (@Datatypes.nil string).
    destruct out as [|c out]; [reflexivity |].
    rewrite split_concat; [apply replay; exact Hok | | exact Hfree].
    cbn [rev]. intros H. apply app_eq_nil in H. destruct H; discriminate.
  - destruct out as [|c out]; [split; reflexivity |].
    assert (Hne : rev (c :: out) <> []).
    { cbn [rev]. intros H. apply app_eq_nil in H. destruct H; discriminate. }
    destruct (rev (c :: out)) as [|x l] eqn:Hrev; [congruence |].
    assert (Hx : has_slash x = false /\ x <> "").
    { assert (Hin : In x (c :: out)).
      { apply in_rev. rewrite Hrev. now left. }
      exact (proj1 (Forall_forall _ _) Hel x Hin). }
    destruct Hx as [Hxs Hxe].
    destruct (concat_head x l) as [rest Hrest].
    destruct x as [|c0 x]; [congruence |].
    assert (Hbody : String.eqb (String.concat "/" (String c0 x :: l)) "" = false).
    { rewrite Hrest. reflexivity. }
    rewrite Hbody. split.
    + rewrite split_concat by (discriminate || exact Hfree).
      rewrite <- Hrev. apply replay. exact Hok.
    + rewrite Hrest. cbn [append rooted].
      cbn [has_slash] in Hxs. apply orb_false_iff in Hxs. destruct Hxs as [Hc0 _].
      destruct c0 as [[] [] [] [] [] [] [] []]; try reflexivity. discriminate.
Qed.

Lemma stack_ok_nil (r : bool) : stack_ok r [].
Proof. exists [], 0. split; [reflexivity | split; [constructor | reflexivity]]. Qed.

Lemma rooted_app (a b : string) : a <> "" -> rooted (a ++ b) = rooted a.
Proof. destruct a as [|c a]; [congruence | reflexivity]. Qed.

(** Joining onto a cleaned path is joining onto the path itself. *)
Lemma Clean_app_Clean (a b : string) :
  a <> "" -> Clean (Clean a ++ String "/" b) = Clean (a ++ String "/" b).
Proof.
  intros Ha.
  pose proof (fold_clean_ok (rooted a) (split "/" a) [] (split_slash_free a)
                (stack_ok_nil _)) as Hok.
  destruct (resplit _ _ Hok) as [Hfold Hroot].
  rewrite <- Clean_render in Hfold, Hroot.
  rewrite (Clean_render (Clean a ++ String "/" b)),
          (Clean_render (a ++ String "/" b)).
  rewrite !rooted_app by (apply Clean_nonempty || exact Ha).
  rewrite Hroot, !split_app_sep, !fold_left_app, Hfold. reflexivity.
Qed.

Lemma Join_two (a b : string) :
  a <> "" -> Join [a; b] = Clean (a ++ String "/" b).
Proof.
  intros Ha. cbn [Join]. apply String.eqb_neq in Ha. rewrite Ha. reflexivity.
Qed.

(** [filepath.Join(filepath.Join(home, ".local", "share"), "gosuki/gosuki.db")] *)
Lemma Join_data_dir (home : string) :
  home <> "" ->
  Join [Join [home; ".local"; "share"]; "gosuki/gosuki.db"]
  = Clean (home ++ "/.local/share/gosuki/gosuki.db").
Proof.
  intros Hhome.
  assert (H1 : Join [home; ".local"; "share"]
               = Clean (home ++ String "/" ".local/share")).
  { cbn [Join]. apply String.eqb_neq in Hhome. rewrite Hhome. reflexivity. }
  rewrite H1, Join_two by apply Clean_nonempty.
  rewrite Clean_app_Clean by (destruct home; [congruence | discriminate]).
  rewrite append_assoc. reflexivity.
Qed.


Lemma concat_cons (x : string) (l : list string) :
  l <> [] ->
  String.concat "/" (x :: l) = x ++ String "/" (String.concat "/" l).
Proof. destruct l; [congruence | reflexivity]. Qed.

Lemma concat_app (l1 l2 : list string) :
  l1 <> [] -> l2 <> [] ->
  String.concat "/" (l1 ++ l2)
  = String.concat "/" l1 ++ String "/" (String.concat "/" l2).
Proof.
  intros H1 H2. induction l1 as [|x l1 IH]; [congruence |].
  destruct l1 as [|y l1].
  - cbn [app]. rewrite concat_cons by exact H2. reflexivity.
  - change ((x :: y :: l1) ++ l2)%list with (x :: ((y :: l1) ++ l2))%list.
    rewrite !concat_cons, IH by (discriminate || (cbn; discriminate)).
    rewrite append_assoc. reflexivity.
Qed.

Lemma concat_split (b : string) : String.concat "/" (split "/" b) = b.
Proof.
  induction b as [|c r IH]; [reflexivity |].
  cbn [split]. pose proof (split_not_nil "/" r) as Hne.
  destruct (Ascii.eqb_spec c "/") as [-> | Hc].
  - rewrite concat_cons, IH by exact Hne. reflexivity.
  - destruct (split "/" r) as [|h t]; [congruence |].
    rewrite <- IH. destruct t; reflexivity.
Qed.

(** Appending plain elements to a clean absolute path other than the root
    gives a clean path. *)
Lemma Clean_append_plain (x b : string) :
  rooted x = true ->
  Clean x = x ->
  x <> "/" ->
  Forall plain_element (split "/" b) ->
  Clean (x ++ String "/" b) = x ++ String "/" b.
Proof.
  intros Hroot Hclean Hx Hb.
  assert (Hne : x <> "") by (intros ->; discriminate).
  rewrite Clean_render, rooted_app, Hroot, split_app_sep, fold_left_app
    by exact Hne.
  rewrite Clean_render, Hroot in Hclean.
  set (out := fold_left (clean_step true) (split "/" x) []) in *.
  rewrite fold_clean_plain by exact Hb.
  unfold render in *. cbv zeta in *. cbn [String.eqb] in *.
  destruct out as [|c out]; [cbn in Hclean; congruence |].
  rewrite rev_app_distr, rev_involutive, concat_app, concat_split.
  - rewrite <- Hclean. reflexivity.
  - cbn [rev]. intros H. apply app_eq_nil in H. destruct H; discriminate.
  - apply split_not_nil.
Qed.

End PathProps.

(** ** [pkg/database] *)

Module DatabaseProps.

Import Utils Database Machine Spec Installed.

Local Open Scope string_scope.

Lemma append_empty_r (s : string) : s ++ "" = s.
Proof. induction s as [|c s IH]; cbn; [reflexivity | now rewrite IH]. Qed.

Lemma Sprintf_name_error (name rendered : string) :
  Sprintf "<%s>: %s" [name; rendered] = "<" ++ name ++ ">: " ++ rendered.
Proof. cbn. now rewrite append_empty_r. Qed.

(** C10.  [DBErr] drops its [dbName] argument: the [DBName] field of the
    result is empty, so the message is the same as for the empty name and
    always starts with an empty pair of angle brackets. *)
Theorem DBErr_discards_name (dbName : string) (err : error) :
  DBName (DBErr dbName err) = EmptyString
  /\ DBErr dbName err = DBErr EmptyString err
  /\ DBError_Error (DBErr dbName err) = DBError_Error (DBErr EmptyString err)
  /\ DBError_Error (DBErr dbName err) = "<>: " ++ fmt_s_error err
  /\ fmt_s_error (as_error (DBErr dbName err)) = "<>: " ++ fmt_s_error err.
Proof.
  repeat split.
  - unfold DBError_Error. rewrite Sprintf_name_error. reflexivity.
  - unfold as_error, fmt_s_error at 1. cbn [Error DBErr DBName Err].
    rewrite Sprintf_name_error. reflexivity.
Qed.

Lemma Sprintf_fields (url metadata tags desc : string) :
  Sprintf "%s+%s+%s+%s" [fmt_s url; fmt_s metadata; fmt_s tags; fmt_s desc]
  = canonical url metadata tags desc.
Proof. unfold canonical, fmt_s. cbn. now rewrite append_empty_r. Qed.

Lemma SQLxxHash_decimal (input : string) :
  SQLxxHash input = fmt_d (XXHash.ChecksumString64 input).
Proof. unfold SQLxxHash. cbn. apply append_empty_r. Qed.

Lemma xhsum_canonical (url metadata tags desc : string) :
  xhsum url metadata tags desc
  = fmt_d (XXHash.ChecksumString64 (canonical url metadata tags desc)).
Proof. unfold xhsum. now rewrite Sprintf_fields, SQLxxHash_decimal. Qed.

(** C4.  [xhsum] is the decimal rendering of XXH64 (seed 0) of the bytes of
    url, title, tag string and description, in that order, separated by
    single plus signs; it is the SQL function [xhash] applied to that
    string.  It is a function of these four strings alone, so equal inputs
    have the same sum in every run. *)
Theorem xhsum_is_hash_of_joined_fields (url metadata tags desc : string) :
  xhsum url metadata tags desc
  = fmt_d (XXHash.Checksum64S
             (map XXHash.byte_of
                (list_ascii_of_string
                   (url ++ "+" ++ metadata ++ "+" ++ tags ++ "+" ++ desc))) 0)
  /\ xhsum url metadata tags desc
     = SQLxxHash (url ++ "+" ++ metadata ++ "+" ++ tags ++ "+" ++ desc).
Proof.
  split.
  - apply xhsum_canonical.
  - now rewrite xhsum_canonical, SQLxxHash_decimal.
Qed.

(** The row of the specification's second scenario. *)
Example xhsum_example :
  xhsum "https://example.com" "Hello #world" "research,world" ""
  = "7131729428310901428".
Proof. vm_compute. reflexivity. Qed.

(** C3, as stated, fails: the separator may occur inside a field, so two
    different field tuples can have the same joined string and then the
    same sum. *)
Lemma xhsum_collision :
  ("https://example.com/?q=a+b", "c", "", "")
    <> ("https://example.com/?q=a", "b+c", "", "")
  /\ xhsum "https://example.com/?q=a+b" "c" "" ""
     = xhsum "https://example.com/?q=a" "b+c" "" "".
Proof. split; [discriminate | reflexivity]. Qed.

(** C3, amended.  [xhsum] is a function of the joined string: bookmarks
    whose canonical strings are byte-equal, in particular bookmarks whose
    (url, title, sorted tags, description) are byte-equal, have the same
    sum. *)
Theorem xhsum_deterministic (url title tags desc url' title' tags' desc' : string) :
  canonical url title tags desc = canonical url' title' tags' desc' ->
  xhsum url title tags desc = xhsum url' title' tags' desc'.
Proof. intros H. now rewrite !xhsum_canonical, H. Qed.

Lemma xhsum_deterministic_example :
  canonical "https://example.com/?q=a+b" "c" "" ""
    = canonical "https://example.com/?q=a" "b+c" "" ""
  /\ xhsum "https://example.com/?q=a+b" "c" "" ""
     = xhsum "https://example.com/?q=a" "b+c" "" "".
Proof.
  split; [reflexivity |].
  apply (xhsum_deterministic "https://example.com/?q=a+b" "c" "" ""
           "https://example.com/?q=a" "b+c" "" "").
  reflexivity.
Defined.


Local Open Scope Z_scope.

(** One tick that does not reach the largest 64-bit value. *)
Lemma Tick_no_wrap (c : LamportClock) (previous : Z) :
  0 <= Value c ->
  Z.max (Value c) previous < uint64_max ->
  sqlTickClock c previous
  = (Z.max (Value c) previous + 1,
     {| Value := Z.max (Value c) previous + 1 |}).
Proof.
  unfold uint64_max, sqlTickClock, Tick. intros H0 Hmax.
  rewrite Z.mod_small by lia. reflexivity.
Qed.

Lemma tick_all_bounds (ps : list Z) : forall c : LamportClock,
  0 <= Value c -> no_wrap c ps ->
  Forall (fun v => Value c < v) (fst (tick_all c ps))
  /\ StronglySorted Z.lt (fst (tick_all c ps))
  /\ Forall2 Z.lt ps (fst (tick_all c ps)).
Proof.
  induction ps as [|p ps IH]; intros c H0 Hw.
  - cbn. repeat split; constructor.
  - cbn [no_wrap] in Hw. destruct Hw as [Hmax Hw].
    cbn [tick_all]. rewrite (Tick_no_wrap c p H0 Hmax) in *.
    cbn [snd] in Hw.
    destruct (IH {| Value := Z.max (Value c) p + 1 |}) as (Hgt & Hs & Hp);
      [cbn; lia | exact Hw |].
    destruct (tick_all _ ps) as [vs c2]. cbn [fst Value] in *.
    repeat split.
    + constructor; [lia |].
      eapply Forall_impl; [| exact Hgt]. cbn. intros v Hv. lia.
    + constructor; [exact Hs |].
      eapply Forall_impl; [| exact Hgt]. cbn. intros v Hv. lia.
    + constructor; [lia | exact Hp].
Qed.

(** C5, as stated, fails at the top of the 64-bit range: the sum wraps
    around to zero.  No unsigned 64-bit result could be greater than that
    argument. *)
Lemma Tick_wraps_counterexample :
  sqlTickClock {| Value := 0 |} uint64_max = (0, {| Value := 0 |})
  /\ ~ (uint64_max < fst (sqlTickClock {| Value := 0 |} uint64_max))
  /\ fst (sqlTickClock {| Value := 0 |} uint64_max)
     <> Z.max 0 uint64_max + 1
  /\ (forall v : Z, v <= uint64_max -> ~ uint64_max < v).
Proof.
  split; [reflexivity |]. split; [| split].
  - vm_compute. discriminate.
  - vm_compute. discriminate.
  - intros v Hv. lia.
Qed.

(** C5, amended.  As long as the larger of the internal value and the
    argument is below [2^64 - 1], a tick returns that maximum plus one and
    stores it as the new internal value, so the result is greater than the
    old internal value and than the argument; and along any sequence of such
    ticks the returned values strictly increase, each exceeding the argument
    it was called with. *)
Theorem Tick_strictly_increases
    (c : LamportClock) (previous : Z) (later : list Z) :
  0 <= Value c ->
  no_wrap c (previous :: later) ->
  let '(v, c1) := sqlTickClock c previous in
  v = Z.max (Value c) previous + 1
  /\ Value c1 = v
  /\ Value c < v
  /\ previous < v
  /\ StronglySorted Z.lt (fst (tick_all c (previous :: later)))
  /\ Forall2 Z.lt (previous :: later) (fst (tick_all c (previous :: later))).
Proof.
  intros H0 Hw.
  destruct (tick_all_bounds (previous :: later) c H0 Hw) as (_ & Hs & Hp).
  destruct Hw as [Hmax _].
  rewrite (Tick_no_wrap c previous H0 Hmax).
  repeat split; try (cbn; lia); assumption.
Qed.

Lemma Tick_strictly_increases_example :
  0 <= Value {| Value := 3 |}
  /\ no_wrap {| Value := 3 |} [0; 7; 2]
  /\ fst (tick_all {| Value := 3 |} [0; 7; 2]) = [4; 8; 9]
  /\ StronglySorted Z.lt (fst (tick_all {| Value := 3 |} [0; 7; 2])).
Proof.
  assert (H0 : 0 <= Value {| Value := 3 |}) by (cbn; lia).
  assert (Hw : no_wrap {| Value := 3 |} [0; 7; 2])
    by (vm_compute; repeat split).
  split; [exact H0 |]. split; [exact Hw |]. split; [reflexivity |].
  exact (proj1 (proj2 (proj2 (proj2 (proj2
           (Tick_strictly_increases {| Value := 3 |} 0 [7; 2] H0 Hw)))))).
Defined.


Local Close Scope Z_scope.

(** [open] never asks the lock checker. *)
Lemma open_calls (env : SqlEnv) (db : DB) (path : string) :
  ~ In (CallLocked path) (snd (open env db)).
Proof.
  unfold open. destruct (sqlx_Open env _ _) as [h | e]; cbn.
  - intros [H | [H | []]]; discriminate H.
  - intros [H | []]; discriminate H.
Qed.

Lemma busy_code (e : error) :
  busy e -> (negb (is_nil e) && Z.eqb (sqlErr_Code e) ErrBusy)%bool = true.
Proof. intros [msg ->]. reflexivity. Qed.

(** [Init] once the probe is out of the way and [open] reports busy. *)
Lemma Init_busy (env : SqlEnv) (db db1 : DB) (e : error) (calls : list call) :
  Handle db = None ->
  Typ db = DBTypeInMemory \/ Locked env db = (false, nil) ->
  open env db = (db1, e, calls) ->
  busy e ->
  fst (Init env db) = (db1, (None, ErrVfsLocked)).
Proof.
  intros Hh Hprobe Hopen Hbusy. unfold Init. rewrite Hh.
  destruct Hprobe as [-> | Hl].
  - rewrite Hopen, (busy_code _ Hbusy). reflexivity.
  - rewrite Hl. destruct (Typ db); rewrite Hopen, (busy_code _ Hbusy);
      reflexivity.
Qed.

(** C6.  On a regular-file database that is not initialised yet, [Init]
    returns the nil pointer and [ErrVfsLocked] in each of the three ways a
    lock is detected.  When the lock probe reports the lock, nothing is
    opened and the receiver keeps its nil handle.  When [sqlx.Open] is
    answered with [SQLITE_BUSY], the receiver keeps its nil handle too.
    When [Ping] is answered with [SQLITE_BUSY], the claim fails: [open] has
    stored the handle in the receiver before the ping and nothing clears
    it, so a handle is produced, and the next [Init] on the receiver
    returns the database as initialised without asking the lock checker or
    the library again.  For an in-memory database the lock checker is
    never called. *)
Theorem Init_reports_lock (env : SqlEnv) (db : DB) :
  Handle db = None ->
  (Typ db = DBTypeRegularFile ->
   Locked env db = (true, nil) ->
   Init env db = (db, (None, ErrVfsLocked), [CallLocked (LockChecker db)]))
  /\ (Typ db = DBTypeRegularFile ->
      Locked env db = (false, nil) ->
      forall e,
      sqlx_Open env (EngineMode db) (Path db) = inr e ->
      busy (Some e) ->
      snd (fst (Init env db)) = (None, ErrVfsLocked)
      /\ Handle (fst (fst (Init env db))) = None
      /\ snd (Init env db)
         = [CallLocked (LockChecker db); CallOpen (EngineMode db) (Path db)])
  /\ (Typ db = DBTypeRegularFile ->
      Locked env db = (false, nil) ->
      forall h,
      sqlx_Open env (EngineMode db) (Path db) = inl h ->
      busy (Ping env h) ->
      let db1 := fst (fst (Init env db)) in
      snd (fst (Init env db)) = (None, ErrVfsLocked)
      /\ Handle db1 = Some h
      /\ forall env', Init env' db1 = (db1, (Some db1, nil), []))
  /\ (Typ db = DBTypeInMemory ->
      snd (Init env db) = snd (open env db)
      /\ forall path, ~ In (CallLocked path) (snd (Init env db))).
Proof.
  intros Hh. split; [| split; [| split]].
  - intros Ht Hl. unfold Init. rewrite Hh, Ht, Hl. reflexivity.
  - intros Ht Hl e Hopen Hbusy.
    assert (Ho : open env db
                 = (with_handles db (Handle db) None, Some e,
                    [CallOpen (EngineMode db) (Path db)])).
    { unfold open. rewrite Hopen. reflexivity. }
    rewrite (Init_busy env db _ _ _ Hh (or_intror Hl) Ho Hbusy).
    split; [reflexivity |]. split; [exact Hh |].
    unfold Init. rewrite Hh, Ht, Hl, Ho, (busy_code _ Hbusy). reflexivity.
  - intros Ht Hl h Hopen Hbusy.
    assert (Ho : open env db
                 = (with_handles db (Some h) (Some h), Ping env h,
                    [CallOpen (EngineMode db) (Path db); CallPing h])).
    { unfold open. rewrite Hopen. reflexivity. }
    cbv zeta.
    rewrite (Init_busy env db _ _ _ Hh (or_intror Hl) Ho Hbusy).
    cbn [fst snd]. split; [reflexivity |]. split; [reflexivity |].
    intros env'. reflexivity.
  - intros Ht.
    assert (Hcalls : snd (Init env db) = snd (open env db)).
    { unfold Init. rewrite Hh, Ht.
      destruct (open env db) as [[db1 e] calls].
      destruct (negb (is_nil e) && _)%bool; [reflexivity |].
      destruct (negb (is_nil e)); reflexivity. }
    split; [exact Hcalls |].
    intros path. rewrite Hcalls. apply open_calls.
Qed.

Lemma Init_reports_lock_gosuki_db :
  Handle gosuki_db = None
  /\ Init held gosuki_db
     = (gosuki_db, (None, ErrVfsLocked),
        [CallLocked "/home/u/.local/share/gosuki/gosuki.db"])
  /\ (snd (fst (Init contended gosuki_db)) = (None, ErrVfsLocked)
      /\ Handle (fst (fst (Init contended gosuki_db))) = Some gosuki_handle
      /\ Init held (fst (fst (Init contended gosuki_db)))
         = (fst (fst (Init contended gosuki_db)),
            (Some (fst (fst (Init contended gosuki_db))), nil), []))
  /\ snd (Init held memcache)
     = [CallOpen DriverDefault "file:memcache?mode=memory&cache=shared";
        CallPing {| driverName := DriverDefault;
                    dataSourceName := "file:memcache?mode=memory&cache=shared" |}].
Proof.
  pose proof (Init_reports_lock held gosuki_db eq_refl) as (Hprobe & _).
  pose proof (Init_reports_lock contended gosuki_db eq_refl)
    as (_ & _ & Hping & _).
  specialize (Hping eq_refl eq_refl gosuki_handle eq_refl
                (ex_intro _ "database is locked" eq_refl)).
  cbv zeta in Hping. destruct Hping as (Hret & Hhandle & Hnext).
  split; [reflexivity |]. split; [exact (Hprobe eq_refl eq_refl) |].
  split; [| reflexivity].
  split; [exact Hret |]. split; [exact Hhandle | exact (Hnext held)].
Defined.


Lemma plain_data_dir :
  Forall Paths.plain_element (split "/" ".local/share/gosuki/gosuki.db")
  /\ Forall Paths.plain_element (split "/" "gosuki/gosuki.db").
Proof.
  split; cbn; repeat constructor; discriminate.
Qed.

(** C8.  [init] sets the default database path to
    [$XDG_DATA_HOME/gosuki/gosuki.db] when [XDG_DATA_HOME] is not empty and
    to [~/.local/share/gosuki/gosuki.db] otherwise, both as [filepath.Join]
    writes them ([Clean]ed; literally so for a clean absolute directory
    other than the root); without [XDG_DATA_HOME] and without a home
    directory the process exits.  The default sync interval is four
    seconds.  The configuration is registered under the name "database",
    where the settings "path" and "sync-interval" replace the defaults. *)
Theorem default_database_path (os : OS) :
  (forall xdg, Getenv os "XDG_DATA_HOME" = xdg -> xdg <> "" ->
   exists p, init os = Started p
     /\ dbConfig.Path (Config p) = Clean (xdg ++ "/gosuki/gosuki.db")
     /\ (rooted xdg = true -> Clean xdg = xdg -> xdg <> "/" ->
         dbConfig.Path (Config p) = xdg ++ "/gosuki/gosuki.db"))
  /\ (forall home, Getenv os "XDG_DATA_HOME" = "" ->
      UserHomeDir os = (home, nil) -> home <> "" ->
      exists p, init os = Started p
        /\ dbConfig.Path (Config p)
           = Clean (home ++ "/.local/share/gosuki/gosuki.db")
        /\ (rooted home = true -> Clean home = home -> home <> "/" ->
            dbConfig.Path (Config p)
            = home ++ "/.local/share/gosuki/gosuki.db"))
  /\ (forall home e, Getenv os "XDG_DATA_HOME" = "" ->
      UserHomeDir os = (home, Some e) -> init os = Fatal e)
  /\ (forall p, init os = Started p ->
      dbConfig.SyncInterval (Config p) = (4 * Second)%Z
      /\ dbConfig.SyncInterval (Config p) = 4000000000%Z
      /\ configurators p = ["database"]
      /\ (forall path,
          dbConfig.Path (Config (configure p "database" "path" (SetString path)))
          = path)
      /\ (forall d,
          dbConfig.SyncInterval
            (Config (configure p "database" "sync-interval" (SetDuration d)))
          = d)).
Proof.
  split; [| split; [| split]].
  - intros xdg Hxdg Hne. unfold init, GetDataDir. rewrite Hxdg.
    apply String.eqb_neq in Hne. rewrite Hne. cbn [negb].
    eexists. split; [reflexivity |]. cbn [Config dbConfig.Path].
    apply String.eqb_neq in Hne.
    rewrite PathProps.Join_two by exact Hne.
    split; [reflexivity |]. intros Hr Hc Hroot.
    apply PathProps.Clean_append_plain; try assumption.
    apply plain_data_dir.
  - intros home Hxdg Hhome Hne. unfold init, GetDataDir.
    rewrite Hxdg, Hhome. cbn [String.eqb negb].
    eexists. split; [reflexivity |]. cbn [Config dbConfig.Path].
    rewrite PathProps.Join_data_dir by exact Hne.
    split; [reflexivity |]. intros Hr Hc Hroot.
    apply PathProps.Clean_append_plain; try assumption.
    apply plain_data_dir.
  - intros home e Hxdg Hhome. unfold init, GetDataDir.
    rewrite Hxdg, Hhome. reflexivity.
  - intros p Hp. unfold init in Hp.
    destruct (GetDataDir os) as [dataDir [e|]]; [discriminate |].
    injection Hp as <-. cbn.
    split; [reflexivity |]. split; [reflexivity |]. split; [reflexivity |].
    split; reflexivity.
Qed.

Lemma default_database_path_laptop :
  (exists p, init laptop = Started p
     /\ dbConfig.Path (Config p) = "/home/u/.data/gosuki/gosuki.db")
  /\ (exists p, init plain = Started p
        /\ dbConfig.Path (Config p) = "/home/u/.local/share/gosuki/gosuki.db").
Proof.
  split.
  - destruct (proj1 (default_database_path laptop) "/home/u/.data" eq_refl
                ltac:(discriminate)) as (p & Hp & _ & Hpath).
    exists p. split; [exact Hp |].
    apply Hpath; [reflexivity | reflexivity | discriminate].
  - destruct (proj1 (proj2 (default_database_path plain)) "/home/u" eq_refl
                eq_refl ltac:(discriminate)) as (p & Hp & _ & Hpath).
    exists p. split; [exact Hp |].
    apply Hpath; [reflexivity | reflexivity | discriminate].
Defined.


Lemma split_at_plus (a a' r r' : string) :
  has_plus a = false -> has_plus a' = false ->
  a ++ String "+" r = a' ++ String "+" r' ->
  a = a' /\ r = r'.
Proof.
  revert a'. induction a as [|c a IH]; intros [|c' a'] Ha Ha' H; cbn in *.
  - injection H as ->. split; reflexivity.
  - injection H as <- _. discriminate Ha'.
  - injection H as -> _. discriminate Ha.
  - injection H as -> H.
    apply orb_false_iff in Ha, Ha'.
    destruct (IH a' (proj2 Ha) (proj2 Ha') H) as [-> ->].
    split; reflexivity.
Qed.

(** When no url, title or tag string contains the separator, different
    field tuples have different joined strings: on such bookmarks two sums
    can only agree by a collision of the hash function itself. *)
Theorem canonical_injective
    (url title tags desc url' title' tags' desc' : string) :
  has_plus url = false -> has_plus title = false -> has_plus tags = false ->
  has_plus url' = false -> has_plus title' = false -> has_plus tags' = false ->
  canonical url title tags desc = canonical url' title' tags' desc' ->
  (url, title, tags, desc) = (url', title', tags', desc').
Proof.
  intros Hu Ht Hg Hu' Ht' Hg' H. unfold canonical in H.
  change ("+" ++ ?x) with (String "+" x) in H.
  destruct (split_at_plus _ _ _ _ Hu Hu' H) as [-> H1].
  destruct (split_at_plus _ _ _ _ Ht Ht' H1) as [-> H2].
  destruct (split_at_plus _ _ _ _ Hg Hg' H2) as [-> ->].
  reflexivity.
Qed.

Lemma canonical_injective_example :
  canonical "https://example.com" "Hello" "research,world" ""
    = "https://example.com+Hello+research,world+"
  /\ ("https://example.com", "Hello", "research,world", "")
     = ("https://example.com", "Hello", "research,world", "").
Proof.
  split; [reflexivity |].
  exact (canonical_injective "https://example.com" "Hello" "research,world" ""
           "https://example.com" "Hello" "research,world" ""
           eq_refl eq_refl eq_refl eq_refl eq_refl eq_refl eq_refl).
Defined.

(** With nothing refused, the connect hook of the default driver registers
    the three SQL functions, among them [xhash] for [SQLxxHash] and
    [tick_clock] for [sqlTickClock]; the first refusal is returned as the
    error. *)
Theorem ConnectHook_registers (refuse : string -> error) (conn : SQLiteConn) :
  (refuse "fuzzy" = nil -> refuse "tick_clock" = nil -> refuse "xhash" = nil ->
   ConnectHook refuse conn
   = (("xhash", FnSQLxxHash) :: ("tick_clock", FnSqlTickClock)
        :: ("fuzzy", FnSQLFuzzy) :: conn, nil))
  /\ (forall e, refuse "fuzzy" = Some e ->
      ConnectHook refuse conn = (conn, Some e)).
Proof.
  unfold ConnectHook, RegisterFunc. split.
  - intros -> -> ->. reflexivity.
  - intros e ->. reflexivity.
Qed.

(** A second [Init] after a busy [Ping].  [open] stores the handle in the
    receiver before it pings; when the ping is answered with [SQLITE_BUSY],
    [Init] returns the nil pointer and [ErrVfsLocked], but the receiver keeps
    the handle, and the next [Init] on it returns it as initialised without
    any further check. *)
Theorem Init_after_busy_ping
    (env : SqlEnv) (db : DB) (h : sqlxDB) (msg : string) :
  Handle db = None ->
  Typ db = DBTypeInMemory \/ Locked env db = (false, nil) ->
  sqlx_Open env (EngineMode db) (Path db) = inl h ->
  Ping env h = Some (sqlite3Error ErrBusy msg) ->
  let db1 := fst (fst (Init env db)) in
  snd (fst (Init env db)) = (None, ErrVfsLocked)
  /\ Handle db1 = Some h
  /\ Init env db1 = (db1, (Some db1, nil), []).
Proof.
  intros Hh Hprobe Hopen Hping.
  assert (Ho : open env db
               = (with_handles db (Some h) (Some h),
                  Some (sqlite3Error ErrBusy msg),
                  [CallOpen (EngineMode db) (Path db); CallPing h])).
  { unfold open. rewrite Hopen, Hping. reflexivity. }
  pose proof (Init_busy env db _ _ _ Hh Hprobe Ho
                (ex_intro _ msg eq_refl)) as Hi.
  cbv zeta. rewrite Hi. cbn [fst snd].
  split; [reflexivity |]. split; [reflexivity |].
  reflexivity.
Qed.

Lemma Init_after_busy_ping_gosuki_db :
  snd (fst (Init contended gosuki_db)) = (None, ErrVfsLocked)
  /\ fst (snd (fst (Init contended (fst (fst (Init contended gosuki_db))))))
     <> None.
Proof.
  pose proof (Init_after_busy_ping contended gosuki_db gosuki_handle
                "database is locked" eq_refl (or_intror eq_refl) eq_refl eq_refl)
    as H.
  cbv zeta in H. destruct H as (H1 & _ & H3).
  split; [exact H1 |]. rewrite H3. discriminate.
Defined.
End DatabaseProps.

(** ** [internal/utils]: expanding, shortening, probing *)

Module FilesProps.

Import Utils Files Paths Spec Machine.

Local Open Scope string_scope.

Lemma expand_from_plain (mapping : string -> string) (s : string) :
  contains "$" s = false -> expand_from mapping 0 s = s.
Proof.
  induction s as [|c r IH]; [reflexivity |].
  cbn [contains expand_from]. intros H.
  apply orb_false_iff in H. destruct H as [Hc Hr].
  rewrite Hc. cbn [andb]. now rewrite (IH Hr).
Qed.

Lemma ExpandEnv_plain (os : OS) (s : string) :
  contains "$" s = false -> ExpandEnv os s = s.
Proof. apply expand_from_plain. Qed.

Lemma Join_one (p : string) : p <> "" -> Join [p] = Clean p.
Proof.
  intros Hp. cbn [Join]. apply String.eqb_neq in Hp. rewrite Hp. reflexivity.
Qed.

Lemma plain_not_rooted (x : string) (l : list string) :
  plain_element x -> rooted (String.concat "/" (x :: l)) = false.
Proof.
  intros (Hne & _ & _ & Hs).
  destruct (PathProps.concat_head x l) as [rest ->].
  destruct x as [|c x]; [congruence |].
  cbn [has_slash] in Hs. apply orb_false_iff in Hs. destruct Hs as [Hc _].
  cbn [append rooted].
  destruct c as [[] [] [] [] [] [] [] []]; try reflexivity. discriminate.
Qed.

Lemma plain_slash_free (l : list string) :
  Forall plain_element l -> Forall (fun c => has_slash c = false) l.
Proof. apply Forall_impl. now intros c (_ & _ & _ & H). Qed.

Lemma concat_nonempty (x : string) (l : list string) :
  x <> "" -> String.concat "/" (x :: l) <> "".
Proof.
  intros Hx. destruct (PathProps.concat_head x l) as [rest ->].
  destruct x; [congruence | discriminate].
Qed.

(** A relative path made of plain elements is clean. *)
Lemma Clean_concat_plain (l : list string) :
  l <> [] -> Forall plain_element l ->
  Clean (String.concat "/" l) = String.concat "/" l.
Proof.
  intros Hl Hall. destruct l as [|x l]; [congruence |].
  inversion Hall as [|? ? Hx _]; subst.
  rewrite PathProps.Clean_render, (plain_not_rooted x l Hx).
  rewrite PathProps.split_concat by (discriminate || apply plain_slash_free, Hall).
  rewrite PathProps.fold_clean_plain, app_nil_r by exact Hall.
  unfold render. cbv zeta. rewrite rev_involutive.
  pose proof (concat_nonempty x l (proj1 Hx)) as Hne.
  apply String.eqb_neq in Hne. now rewrite Hne.
Qed.

(** Appending, after a doubled separator, plain elements to a clean
    absolute path other than the root. *)
Lemma Clean_append_slash (x b : string) :
  rooted x = true ->
  Clean x = x ->
  x <> "/" ->
  Forall plain_element (split "/" b) ->
  Clean (x ++ String "/" (String "/" b)) = x ++ String "/" b.
Proof.
  intros Hroot Hclean Hx Hb.
  rewrite <- (PathProps.Clean_append_plain x b Hroot Hclean Hx Hb).
  assert (Hne : x <> "") by (intros ->; discriminate).
  rewrite !PathProps.Clean_render, !PathProps.rooted_app by exact Hne.
  rewrite !PathProps.split_app_sep, !fold_left_app.
  reflexivity.
Qed.

Lemma HasPrefix_app (p rest : string) : HasPrefix (p ++ rest) p = true.
Proof.
  induction p as [|c p IH]; [now destruct rest |].
  cbn. now rewrite Ascii.eqb_refl, IH.
Qed.

Lemma drop_app (p rest : string) : drop (String.length p) (p ++ rest) = rest.
Proof. induction p as [|c p IH]; [now destruct rest | exact IH]. Qed.

Lemma replace_first_prefix (old new rest : string) :
  replace_first old new (old ++ rest) = new ++ rest.
Proof.
  destruct (old ++ rest) as [|c r] eqn:E; cbn [replace_first];
    rewrite <- E, HasPrefix_app, drop_app; reflexivity.
Qed.

Lemma Shorten_app (os : OS) (rest : string) :
  Shorten os (fst (UserHomeDir os) ++ rest) = "~" ++ rest.
Proof.
  unfold Shorten. cbv zeta. rewrite HasPrefix_app. unfold Replace1.
  destruct (String.eqb_spec (fst (UserHomeDir os)) "~") as [-> | _];
    [reflexivity | apply replace_first_prefix].
Qed.

(** [Shorten] replaces the home directory wherever the path starts with its
    bytes, also when the prefix ends inside a path element
    ([/home/u] in [/home/u2/x]); when the home directory is unknown, and so
    empty, every path starts with it and gets a tilde in front. *)
Theorem Shorten_prefix (os : OS) :
  (forall rest, Shorten os (fst (UserHomeDir os) ++ rest) = "~" ++ rest)
  /\ (fst (UserHomeDir os) = "" -> forall path, Shorten os path = "~" ++ path)
  /\ (forall path, HasPrefix path (fst (UserHomeDir os)) = false ->
      Shorten os path = path).
Proof.
  split; [apply Shorten_app |]. split.
  - intros Hhome path. pose proof (Shorten_app os path) as H.
    now rewrite Hhome in H.
  - intros path Hp. unfold Shorten. cbv zeta. now rewrite Hp.
Qed.

Lemma no_leading_tilde (homedir r : string) :
  HasPrefix r "~" = false -> tilde homedir r = r.
Proof.
  intros H. destruct r as [|a r]; [reflexivity |]. unfold tilde.
  destruct a as [[] [] [] [] [] [] [] []]; try reflexivity.
  cbn in H. destruct r; discriminate H.
Qed.

(** A path that is already expanded is left alone: when the home directory
    is known, a clean path without dollar sign and without leading tilde is
    returned as it is by [ExpandOnly], and [ExpandPath] only resolves its
    symlinks. *)
Theorem ExpandOnly_expanded_path (os : OS) (homedir path : string) :
  UserHomeDir os = (homedir, nil) ->
  Clean path = path ->
  contains "$" path = false ->
  HasPrefix path "~" = false ->
  ExpandOnly os [path] = Ret (path, nil)
  /\ ExpandPath os [path] = Ret (EvalSymlinks os path).
Proof.
  intros Hhome Hclean Hdollar Htilde.
  assert (Hne : path <> "").
  { rewrite <- Hclean. apply PathProps.Clean_nonempty. }
  assert (Hexp : ExpandEnv os (Join [path]) = path).
  { rewrite Join_one, Hclean by exact Hne. now apply ExpandEnv_plain. }
  assert (Hexp' : expansion os homedir [path] = path).
  { unfold expansion. rewrite Hexp. now apply no_leading_tilde. }
  split.
  - rewrite UtilsProps.ExpandOnly_returns, Hhome, Hexp'
      by (discriminate || (rewrite Hexp; exact Hne)).
    cbn [hd]. apply String.eqb_neq in Hne. now rewrite Hne.
  - rewrite UtilsProps.ExpandPath_returns, Hhome, Hexp'
      by (discriminate || (rewrite Hexp; exact Hne)).
    reflexivity.
Qed.

Lemma ExpandOnly_expanded_path_chromium :
  UserHomeDir laptop = ("/home/u", nil)
  /\ Clean "/home/u/.config/chromium" = "/home/u/.config/chromium"
  /\ ExpandOnly laptop ["/home/u/.config/chromium"]
     = Ret ("/home/u/.config/chromium", nil).
Proof.
  split; [reflexivity |]. split; [reflexivity |].
  exact (proj1 (ExpandOnly_expanded_path laptop "/home/u"
                  "/home/u/.config/chromium" eq_refl eq_refl eq_refl eq_refl)).
Defined.

Lemma contains_app (c : ascii) (a b : string) :
  contains c (a ++ b) = (contains c a || contains c b)%bool.
Proof.
  induction a as [|x a IH]; [reflexivity |].
  cbn. now rewrite IH, orb_assoc.
Qed.

(** Shortening and expanding again gives the path back: for a clean
    absolute home directory other than the root and a path below it made of
    plain elements, neither with a dollar sign. *)
Theorem ExpandOnly_Shorten (os : OS) (homedir rest : string) :
  UserHomeDir os = (homedir, nil) ->
  rooted homedir = true ->
  Clean homedir = homedir ->
  homedir <> "/" ->
  Forall plain_element (split "/" rest) ->
  contains "$" rest = false ->
  Shorten os (homedir ++ "/" ++ rest) = "~/" ++ rest
  /\ ExpandOnly os [Shorten os (homedir ++ "/" ++ rest)]
     = Ret (homedir ++ "/" ++ rest, nil).
Proof.
  intros Hhome Hroot Hclean Hnotroot Hrest Hd2.
  assert (Hs : Shorten os (homedir ++ "/" ++ rest) = "~/" ++ rest).
  { pose proof (Shorten_app os ("/" ++ rest)) as H.
    rewrite Hhome in H. exact H. }
  split; [exact Hs |]. rewrite Hs.
  assert (Hplain : Forall plain_element ("~" :: split "/" rest)).
  { constructor; [| exact Hrest].
    split; [discriminate | split; [discriminate | split; [discriminate | reflexivity]]]. }
  assert (Hc : Clean ("~/" ++ rest) = "~/" ++ rest).
  { assert (Hne : "~" :: split "/" rest <> []) by discriminate.
    pose proof (Clean_concat_plain _ Hne Hplain) as H.
    rewrite PathProps.concat_cons, PathProps.concat_split in H
      by apply PathProps.split_not_nil.
    exact H. }
  assert (Hexp : ExpandEnv os (Join ["~/" ++ rest]) = "~/" ++ rest).
  { rewrite Join_one, Hc by discriminate. apply ExpandEnv_plain.
    cbn. exact Hd2. }
  rewrite UtilsProps.ExpandOnly_returns, Hhome
    by (discriminate || (rewrite Hexp; discriminate)).
  unfold expansion. rewrite Hexp.
  change (hd "" ["~/" ++ rest]) with (String "~" (String "/" rest)).
  change (tilde homedir ("~/" ++ rest)) with (Join [homedir; String "/" rest]).
  cbn [String.eqb].
  rewrite PathProps.Join_two by (intros ->; discriminate).
  rewrite Clean_append_slash by assumption.
  reflexivity.
Qed.


Lemma ExpandOnly_Shorten_chromium :
  UserHomeDir laptop = ("/home/u", nil)
  /\ Shorten laptop "/home/u/.config/chromium" = "~/.config/chromium"
  /\ ExpandOnly laptop [Shorten laptop "/home/u/.config/chromium"]
     = Ret ("/home/u/.config/chromium", nil).
Proof.
  split; [reflexivity |].
  apply (ExpandOnly_Shorten laptop "/home/u" ".config/chromium");
    try reflexivity; try discriminate.
  cbn. repeat constructor; discriminate.
Defined.

(** [CheckFileExists] answers true exactly for a path at which [os.Stat]
    finds something that is not a directory, and then without error; a
    missing path is no error; a directory is an error, so a path is never
    reported both as a file and, by [DirExists], as a directory. *)
Theorem CheckFileExists_answers (os : OS) (errno : Errno) (file : string) :
  (fst (CheckFileExists os errno file) = true <->
   exists info, Stat os file = inl info /\ IsDir info = false)
  /\ (fst (CheckFileExists os errno file) = true ->
      snd (CheckFileExists os errno file) = nil)
  /\ (forall e, Stat os file = inr e -> IsNotExist errno e = true ->
      CheckFileExists os errno file = (false, nil))
  /\ (fst (DirExists os file) = true ->
      CheckFileExists os errno file
      = (false, Some (errorString ("'" ++ file ++ "' is a directory"))))
  /\ ~ (fst (CheckFileExists os errno file) = true
        /\ fst (DirExists os file) = true).
Proof.
  unfold CheckFileExists, DirExists.
  destruct (Stat os file) as [[[|]] | e].
  - split; [split; [discriminate | intros (info & H & Hd); injection H as <-; discriminate Hd] |].
    split; [discriminate |]. split; [discriminate |].
    split; [| intros [H _]; discriminate H].
    intros _. reflexivity.
  - split; [split; [intros _; eexists; split; reflexivity | reflexivity] |].
    split; [reflexivity |]. split; [discriminate |].
    split; [discriminate | intros [_ H]; discriminate H].
  - split; [split; [destruct (IsNotExist errno e); discriminate
                   | intros (info & H & _); discriminate H] |].
    split; [destruct (IsNotExist errno e); discriminate |].
    split; [intros e' H Hn; injection H as <-; now rewrite Hn |].
    split; [discriminate | intros [_ H]; discriminate H].
Qed.

Lemma MkDir_existing {S : Type} (disk : Disk S) (errno : Errno) (s : S)
    (dir : string) (info : FileInfo) :
  disk_Stat disk s dir = inl info ->
  forall s', MkDir disk errno s dir = (s', nil) ->
  exists s1,
    disk_Create disk s (Join [dir; "test"]) = (s1, nil)
    /\ disk_Remove disk s1 (Join [dir; "test"]) = (s', nil).
Proof.
  intros Hstat s' H. unfold MkDir in H. rewrite Hstat in H. cbv zeta in H.
  destruct (disk_Create disk s (Join [dir; "test"])) as [s1 [e|]].
  - destruct (IsPermission errno e); discriminate H.
  - exists s1. split; [reflexivity | exact H].
Qed.

(** [MkDir] succeeds in exactly two ways: the directory exists and the file
    [test] in it could be created and removed again, or [os.Stat] reported
    that the directory does not exist and [os.MkdirAll] created it.  After
    the first, on a disk where removing removes, nothing is named [test] in
    the directory any more, whether or not a file of that name was there
    before. *)
Theorem MkDir_succeeds {S : Type} (disk : Disk S) (errno : Errno) (s s' : S)
    (dir : string) :
  MkDir disk errno s dir = (s', nil) ->
  (exists info s1,
     disk_Stat disk s dir = inl info
     /\ disk_Create disk s (Join [dir; "test"]) = (s1, nil)
     /\ disk_Remove disk s1 (Join [dir; "test"]) = (s', nil)
     /\ (removal_removes disk ->
         exists e, disk_Stat disk s' (Join [dir; "test"]) = inr e))
  \/ (exists e,
        disk_Stat disk s dir = inr e
        /\ IsNotExist errno e = true
        /\ disk_MkdirAll disk s dir = (s', nil)).
Proof.
  intros H. destruct (disk_Stat disk s dir) as [info | e] eqn:Hstat.
  - left. destruct (MkDir_existing disk errno s dir info Hstat s' H)
      as (s1 & Hc & Hr).
    exists info, s1. split; [reflexivity |]. split; [exact Hc |].
    split; [exact Hr |]. intros Hlaw. exact (Hlaw _ _ _ Hr).
  - right. exists e. split; [reflexivity |].
    unfold MkDir in H. rewrite Hstat in H.
    destruct (IsNotExist errno e); [split; [reflexivity | exact H] |].
    destruct (IsPermission errno e); discriminate H.
Qed.

Lemma lookup_without (path : string) (t : table) :
  Machine.lookup path (without path t) = None.
Proof.
  induction t as [|[k v] t IH]; [reflexivity |].
  cbn [without filter fst].
  destruct (String.eqb_spec k path) as [-> | Hk]; cbn [negb]; [exact IH |].
  cbn [Machine.lookup].
  destruct (String.eqb_spec path k) as [-> | _]; [congruence | exact IH].
Qed.

Lemma on_table_removes : removal_removes on_table.
Proof.
  intros t path t' H. cbn in H.
  destruct (Machine.lookup path t); [| discriminate H].
  injection H as <-. cbn. unfold table_Stat.
  rewrite lookup_without. eauto.
Qed.

Lemma MkDir_succeeds_repo :
  MkDir on_table unix_errno repo "/srv/repo"
    = ([("/srv/repo", Machine.Dir); ("/srv/repo/gosuki.db", Machine.File)], nil)
  /\ table_Stat repo "/srv/repo/test" = inl {| IsDir := false |}
  /\ exists e,
       table_Stat (fst (MkDir on_table unix_errno repo "/srv/repo"))
         "/srv/repo/test" = inr e.
Proof.
  split; [reflexivity |]. split; [reflexivity |].
  destruct (MkDir_succeeds on_table unix_errno repo _ "/srv/repo" eq_refl)
    as [(info & s1 & _ & _ & _ & H) | (e & H & _)].
  - exact (H on_table_removes).
  - discriminate H.
Defined.

End FilesProps.

(** ** The browser registry *)

Module RegistryProps.

Import Browsers Registry Installed.

Local Open Scope list_scope.

Lemma get_put (m : flavours) (k k' : string) (v : BrowserDef) :
  get (put m k v) k' = if String.eqb k' k then Some v else get m k'.
Proof.
  induction m as [|[k0 v0] m IH]; cbn [put get].
  - reflexivity.
  - destruct (String.eqb_spec k k0) as [-> | Hk]; cbn [get].
    + destruct (String.eqb k' k0); reflexivity.
    + rewrite IH. destruct (String.eqb_spec k' k0) as [-> | Hk'];
        [| reflexivity].
      apply not_eq_sym, String.eqb_neq in Hk. now rewrite Hk.
Qed.

Lemma Defined_snoc (defs : list BrowserDef) (b : BrowserDef)
    (family : BrowserFamily) :
  Defined (defs ++ [b]) family
  = if family_eqb (Family b) family
    then put (Defined defs family) (Flavour b) b
    else Defined defs family.
Proof. unfold Defined. now rewrite fold_left_app. Qed.

(** What [Defined] holds under a flavour: the last definition of the list
    with that family and flavour. *)
Lemma Defined_find (defs : list BrowserDef) (family : BrowserFamily)
    (flavour : string) :
  get (Defined defs family) flavour = find (selects family flavour) (rev defs).
Proof.
  induction defs as [|b defs IH] using rev_ind; [reflexivity |].
  rewrite Defined_snoc, rev_app_distr. cbn [rev app find]. unfold selects at 1.
  destruct (family_eqb (Family b) family); cbn [andb]; [| exact IH].
  rewrite get_put. destruct (String.eqb flavour (Flavour b)); [reflexivity | exact IH].
Qed.

Lemma family_eqb_eq (a b : BrowserFamily) : family_eqb a b = true <-> a = b.
Proof. destruct a, b; cbn; split; congruence. Qed.

(** [Defined(family)] maps a flavour to the last definition of
    [DefinedBrowsers] with that family and flavour: what it returns is in the
    list and has the family and the flavour asked for, every definition of
    the family has its flavour in the map, and a later definition of the
    same family and flavour hides the earlier ones. *)
Theorem Defined_lookup (defs : list BrowserDef) (family : BrowserFamily) :
  (forall flavour b,
     get (Defined defs family) flavour = Some b ->
     In b defs /\ Family b = family /\ Flavour b = flavour)
  /\ (forall b, In b defs -> Family b = family ->
      exists b', get (Defined defs family) (Flavour b) = Some b')
  /\ (forall before b after,
      defs = before ++ b :: after ->
      Family b = family ->
      (forall b', In b' after -> Family b' = family -> Flavour b' <> Flavour b) ->
      get (Defined defs family) (Flavour b) = Some b).
Proof.
  split; [| split].
  - intros flavour b H. rewrite Defined_find in H.
    apply find_some in H. destruct H as [Hin Hsel].
    apply andb_true_iff in Hsel. destruct Hsel as [Hf Hk].
    split; [now apply in_rev |].
    split; [now apply family_eqb_eq | symmetry; now apply String.eqb_eq].
  - intros b Hin Hf. rewrite Defined_find.
    destruct (find (selects family (Flavour b)) (rev defs)) as [b'|] eqn:E;
      [eauto |].
    exfalso. pose proof (find_none _ _ E b) as Hn.
    rewrite <- in_rev in Hn. specialize (Hn Hin).
    unfold selects in Hn. apply family_eqb_eq in Hf.
    rewrite Hf, String.eqb_refl in Hn. discriminate Hn.
  - intros before b after -> Hf Hlater. rewrite Defined_find.
    rewrite rev_app_distr. cbn [rev]. rewrite <- app_assoc. cbn [app].
    assert (Hnone : forall l, (forall b', In b' l -> Family b' = family ->
                                Flavour b' <> Flavour b) ->
                    forall tail, find (selects family (Flavour b)) (l ++ tail)
                                 = find (selects family (Flavour b)) tail).
    { induction l as [|x l IH]; intros Hl tail; [reflexivity |].
      cbn [app find]. unfold selects at 1.
      destruct (family_eqb (Family x) family) eqn:Ex; cbn [andb].
      - destruct (String.eqb_spec (Flavour b) (Flavour x)) as [Heq | _].
        + exfalso. apply (Hl x (or_introl eq_refl));
            [now apply family_eqb_eq | now symmetry].
        + apply IH. intros b' Hb'. apply Hl. now right.
      - apply IH. intros b' Hb'. apply Hl. now right. }
    rewrite Hnone by (intros b' Hb'; apply Hlater; now apply in_rev).
    cbn [find]. unfold selects.
    apply family_eqb_eq in Hf. now rewrite Hf, String.eqb_refl.
Qed.

(** After [AddBrowserDef(b)], [Defined] of [b]'s family holds [b] under
    [b]'s flavour, whatever was defined before, and every other flavour of
    every family is looked up as before. *)
Theorem AddBrowserDef_lookup (defs : list BrowserDef) (b : BrowserDef) :
  get (Defined (AddBrowserDef defs b) (Family b)) (Flavour b) = Some b
  /\ (forall family flavour,
      family <> Family b \/ flavour <> Flavour b ->
      get (Defined (AddBrowserDef defs b) family) flavour
      = get (Defined defs family) flavour).
Proof.
  unfold AddBrowserDef. split.
  - rewrite Defined_snoc.
    assert (H : family_eqb (Family b) (Family b) = true)
      by now apply family_eqb_eq.
    now rewrite H, get_put, String.eqb_refl.
  - intros family flavour Hother. rewrite Defined_snoc.
    destruct (family_eqb (Family b) family) eqn:E; [| reflexivity].
    rewrite get_put. apply family_eqb_eq in E.
    destruct (String.eqb_spec flavour (Flavour b)) as [Hk | _]; [| reflexivity].
    destruct Hother as [H | H]; [now symmetry in E | contradiction].
Qed.

End RegistryProps.

(** ** [pkg/database]: what [Init] returns and calls *)

Module StoreProps.

Import Database Connections Spec Installed.

Local Open Scope list_scope.

Lemma same_fields_refl (db : DB) : same_fields db db.
Proof. repeat split. Qed.

Lemma open_effect (env : SqlEnv) (db db1 : DB) (e : error) (calls : list call) :
  open env db = (db1, e, calls) ->
  same_fields db1 db
  /\ (e = nil -> Handle db1 <> None)
  /\ (calls = [CallOpen (EngineMode db) (Path db)]
      \/ exists h, sqlx_Open env (EngineMode db) (Path db) = inl h
                   /\ calls = [CallOpen (EngineMode db) (Path db); CallPing h]).
Proof.
  unfold open. destruct (sqlx_Open env _ _) as [h | oe]; intros H;
    injection H as <- <- <-.
  - split; [repeat split |]. split; [discriminate |]. right. eauto.
  - split; [repeat split |]. split; [discriminate |]. now left.
Qed.

(** The four ways through [Init]. *)
Lemma Init_ways (env : SqlEnv) (db : DB) :
  (Handle db <> None /\ Init env db = (db, (Some db, nil), []))
  \/ (Handle db = None /\ Typ db = DBTypeRegularFile
      /\ exists b e, Locked env db = (b, Some e)
         /\ Init env db
            = (db, (None, Some (DBErrorV (Name db) (Some e))),
               [CallLocked (LockChecker db)]))
  \/ (Handle db = None /\ Typ db = DBTypeRegularFile
      /\ Locked env db = (true, nil)
      /\ Init env db
         = (db, (None, ErrVfsLocked), [CallLocked (LockChecker db)]))
  \/ (Handle db = None
      /\ exists probe db1 e calls,
         ((Typ db = DBTypeInMemory /\ probe = [])
          \/ (Typ db = DBTypeRegularFile /\ Locked env db = (false, nil)
              /\ probe = [CallLocked (LockChecker db)]))
         /\ open env db = (db1, e, calls)
         /\ Init env db
            = (db1,
               match e with
               | None => (Some db1, nil)
               | Some x =>
                   if Z.eqb (sqlErr_Code e) ErrBusy then (None, ErrVfsLocked)
                   else (None, Some (DBErrorV (Name db) (Some x)))
               end,
               probe ++ calls)).
Proof.
  unfold Init. destruct (Handle db) as [h0|] eqn:Hh.
  { left. split; [discriminate | reflexivity]. }
  right. destruct (Typ db) eqn:Ht.
  - right. right. split; [reflexivity |].
    destruct (open env db) as [[db1 e] calls] eqn:Ho.
    exists [], db1, e, calls. split; [now left |]. split; [reflexivity |].
    destruct e as [x|]; cbn [is_nil negb andb]; [| reflexivity].
    destruct (Z.eqb (sqlErr_Code (Some x)) ErrBusy); reflexivity.
  - destruct (Locked env db) as [[|] [le|]] eqn:Hl.
    + left. split; [reflexivity |]. split; [reflexivity |]. eauto.
    + right. left. auto.
    + left. split; [reflexivity |]. split; [reflexivity |]. eauto.
    + right. right. split; [reflexivity |].
      destruct (open env db) as [[db1 e] calls] eqn:Ho.
      exists [CallLocked (LockChecker db)], db1, e, calls.
      split; [right; auto |]. split; [reflexivity |].
      destruct e as [x|]; cbn [is_nil negb andb]; [| reflexivity].
      destruct (Z.eqb (sqlErr_Code (Some x)) ErrBusy); reflexivity.
Qed.

(** [Init] returns either a database and no error or no database and an
    error, never both and never neither.  A returned database is the
    receiver and holds a handle.  An error is [ErrVfsLocked] or a [DBError]
    that carries the name of the database.  No field of the receiver other
    than the handles is changed. *)
Theorem Init_returns_db_or_error (env : SqlEnv) (db : DB) :
  let '(db1, (p, e), _) := Init env db in
  (p = None <-> e <> nil)
  /\ (forall d, p = Some d -> d = db1 /\ Handle db1 <> None)
  /\ (e <> nil ->
      e = ErrVfsLocked
      \/ exists inner, e = Some (DBErrorV (Name db) (Some inner)))
  /\ same_fields db1 db.
Proof.
  destruct (Init_ways env db)

    as [[Hh ->] | [(_ & _ & b & e & _ & ->) | [(_ & _ & _ & ->)
       | (_ & probe & db1 & e & calls & _ & Ho & ->)]]].
  - split; [split; [discriminate | intros H; now contradiction H] |].
    split; [intros d H; injection H as <-; auto |].
    split; [intros H; now contradiction H | apply same_fields_refl].
  - split; [split; [discriminate | reflexivity] |].
    split; [discriminate |].
    split; [right; eauto | apply same_fields_refl].
  - split; [split; [discriminate | reflexivity] |].
    split; [discriminate |].
    split; [now left | apply same_fields_refl].
  - destruct (open_effect env db db1 e calls Ho) as (Hsame & Hhandle & _).
    destruct e as [x|].
    + destruct (Z.eqb (sqlErr_Code (Some x)) ErrBusy).
      * split; [split; [discriminate | reflexivity] |].
        split; [discriminate |]. split; [now left | exact Hsame].
      * split; [split; [discriminate | reflexivity] |].
        split; [discriminate |]. split; [right; eauto | exact Hsame].
    + split; [split; [discriminate | intros H; now contradiction H] |].
      split; [intros d H; injection H as <-; auto |].
      split; [intros H; now contradiction H | exact Hsame].
Qed.

(** The calls [Init] makes, exactly and in order.  An initialised database
    causes no call.  Otherwise a regular file is probed first, always, and
    when the lock checker reports a lock or an error that is the only call.
    In the remaining cases, an in-memory database or a probe that passed,
    [sqlx.Open] follows with the engine mode and the data source name, and
    [Ping] follows on the handle that [sqlx.Open] returned, if it returned
    one.  So the lock checker is asked at most once and before anything is
    opened, and nothing is opened after a lock or a probe error. *)
Theorem Init_calls (env : SqlEnv) (db : DB) :
  let calls := snd (Init env db) in
  let probe :=
    match Typ db with
    | DBTypeRegularFile => [CallLocked (LockChecker db)]
    | DBTypeInMemory => []
    end in
  let opening :=
    match sqlx_Open env (EngineMode db) (Path db) with
    | inl h => [CallOpen (EngineMode db) (Path db); CallPing h]
    | inr _ => [CallOpen (EngineMode db) (Path db)]
    end in
  (Handle db <> None -> calls = [])
  /\ (Handle db = None -> Typ db = DBTypeRegularFile ->
      Locked env db <> (false, nil) ->
      calls = [CallLocked (LockChecker db)])
  /\ (Handle db = None ->
      Typ db = DBTypeInMemory \/ Locked env db = (false, nil) ->
      calls = probe ++ opening)
  /\ (Handle db = None -> Typ db = DBTypeRegularFile ->
      exists rest,
        calls = CallLocked (LockChecker db) :: rest
        /\ (forall path, ~ In (CallLocked path) rest)
        /\ (rest <> [] -> Locked env db = (false, nil))).
Proof.
  cbv zeta.
  assert (Hopening : forall db1 e calls,
            open env db = (db1, e, calls) ->
            calls = match sqlx_Open env (EngineMode db) (Path db) with
                    | inl h => [CallOpen (EngineMode db) (Path db); CallPing h]
                    | inr _ => [CallOpen (EngineMode db) (Path db)]
                    end).
  { intros db1 e calls. unfold open.
    destruct (sqlx_Open env _ _); intros H; injection H as _ _ <-;
      reflexivity. }
  destruct (Init_ways env db)
    as [[Hh H] | [(Hh & Ht & b & e & Hl & H) | [(Hh & Ht & Hl & H)
       | (Hh & probe & db1 & e & calls & Hp & Ho & H)]]]; rewrite H; cbn [snd].
  - split; [reflexivity |].
    split; [intros Hn; now contradiction Hh |].
    split; [intros Hn; now contradiction Hh |].
    intros Hn. now contradiction Hh.
  - split; [intros Hn; now contradiction Hn |]. split; [reflexivity |]. split.
    + intros _ [Hm | Hf]; [congruence | rewrite Hl in Hf; discriminate Hf].
    + intros _ _. exists []. split; [reflexivity |].
      split; [intros path [] | intros Hn; now contradiction Hn].
  - split; [intros Hn; now contradiction Hn |]. split; [reflexivity |]. split.
    + intros _ [Hm | Hf]; [congruence | rewrite Hl in Hf; discriminate Hf].
    + intros _ _. exists []. split; [reflexivity |].
      split; [intros path [] | intros Hn; now contradiction Hn].
  - rewrite (Hopening db1 e calls Ho) in *.
    split; [intros Hn; now contradiction Hn |].
    destruct Hp as [[Ht ->] | (Ht & Hl & ->)]; rewrite Ht.
    + split; [intros _ Hr; discriminate Hr |].
      split; [reflexivity |]. intros _ Hr. discriminate Hr.
    + split; [intros _ _ Hn; now contradiction Hn |].
      split; [reflexivity |]. intros _ _.
      eexists. split; [reflexivity |]. split; [| intros _; exact Hl].
      intros path.
      destruct (sqlx_Open env _ _); cbn; intros Hin;
        repeat (destruct Hin as [Hin | Hin]; [discriminate Hin |]);
        exact Hin.
Qed.


(** Once [Init] has returned a database, [Init] on it again returns the
    same database without probing, opening or pinging, whatever the
    environment has become, and also after [Close]: [Close] leaves the
    handle in the receiver. *)
Theorem Init_once {S : Type} (env env' : SqlEnv) (lib : Library S) (s : S)
    (db db1 d : DB) (calls : list call) :
  Init env db = (db1, (Some d, nil), calls) ->
  Init env' db1 = (db1, (Some db1, nil), [])
  /\ snd (fst (Close lib s db1)) = db1
  /\ Init env' (snd (fst (Close lib s db1))) = (db1, (Some db1, nil), []).
Proof.
  intros H.
  assert (Hhandle : Handle db1 <> None).
  { destruct (Init_ways env db)
      as [[Hh H'] | [(_ & _ & b & e & _ & H') | [(_ & _ & _ & H')
         | (_ & probe & db2 & e & calls' & _ & Ho & H')]]];
      rewrite H' in H; try discriminate H.
    - injection H as <- _ _. exact Hh.
    - destruct (open_effect env db db2 e calls' Ho) as (_ & Hopened & _).
      destruct e as [x|].
      + destruct (Z.eqb (sqlErr_Code (Some x)) ErrBusy); discriminate H.
      + injection H as <- _ _. now apply Hopened. }
  assert (Hagain : Init env' db1 = (db1, (Some db1, nil), [])).
  { unfold Init. destruct (Handle db1); [reflexivity | now contradiction Hhandle]. }
  assert (Hclose : snd (fst (Close lib s db1)) = db1).
  { unfold Close. destruct (Handle db1); [| reflexivity].
    destruct (lib_Close lib s s0). reflexivity. }
  split; [exact Hagain |]. split; [exact Hclose |]. now rewrite Hclose.
Qed.


Lemma Init_once_gosuki_db :
  exists db1 calls,
    Init quiet gosuki_db = (db1, (Some db1, nil), calls)
    /\ Handle db1 = Some gosuki_handle
    /\ Init held db1 = (db1, (Some db1, nil), []).
Proof.
  eexists. eexists. split; [reflexivity |]. split; [reflexivity |].
  exact (proj1 (Init_once quiet held strict [] gosuki_db _ _ _ eq_refl)).
Defined.

Lemma Attach_effect {S : Type} (lib : Library S) (s s' : S) (db db' other : DB)
    (err : error) :
  Attach lib s db other = Ret (s', db', err) ->
  Handle db' = Handle db
  /\ AttachedTo db'
     = AttachedTo db ++ match err with None => [Name other] | Some _ => [] end.
Proof.
  unfold Attach. destruct (Handle db) as [h|] eqn:Hh; [| discriminate].
  destruct (lib_Exec lib s h _) as [s1 [e|]]; intros H; injection H as <- <- <-.
  - split; [exact Hh | now rewrite app_nil_r].
  - split; [exact Hh | reflexivity].
Qed.

(** After any series of [Attach] calls that returned, [AttachedTo] is the
    list it was followed by the names of the databases whose call returned
    no error, in the order of the calls; a failed call adds nothing, and
    there is one answer per call.  On a database without handle the first
    call panics. *)
Theorem attach_all_AttachedTo {S : Type} (lib : Library S) (others : list DB) :
  forall (s : S) (db : DB),
  (forall s' db' errs,
     attach_all lib s db others = Ret (s', db', errs) ->
     AttachedTo db' = AttachedTo db ++ succeeded others errs
     /\ length errs = length others
     /\ Handle db' = Handle db)
  /\ (Handle db = None -> others <> [] ->
      attach_all lib s db others = Panic nil_dereference).
Proof.
  induction others as [|other rest IH]; intros s db; split.
  - intros s' db' errs H. injection H as <- <- <-.
    now rewrite app_nil_r.
  - congruence.
  - intros s' db' errs H. cbn [attach_all] in H.
    destruct (Attach lib s db other) as [[[s1 db1] err]|msg] eqn:Ha;
      cbn [bind] in H; [| discriminate H].
    destruct (attach_all lib s1 db1 rest) as [[[s2 db2] errs']|msg] eqn:Hr;
      cbn [bind] in H; [| discriminate H].
    injection H as <- <- <-.
    destruct (Attach_effect _ _ _ _ _ _ _ Ha) as [Hh Hat].
    destruct (proj1 (IH s1 db1) _ _ _ Hr) as (Hat' & Hlen & Hh').
    split; [| split; [cbn; now rewrite Hlen | congruence]].
    rewrite Hat', Hat, <- app_assoc. destruct err; reflexivity.
  - intros Hh _. cbn [attach_all]. unfold Attach. now rewrite Hh.
Qed.

Lemma length_removelast {A : Type} (l : list A) :
  length (removelast l) = Nat.pred (length l).
Proof. rewrite removelast_firstn_len, length_firstn. lia. Qed.

(** What is flushed is decided by the number of calls alone: flushing [n]
    times forgets the last [n] connections of the list, whichever handles
    are passed; one call more than there are connections panics.  So a
    connection recorded by the backup driver's hook is forgotten by the next
    flush. *)
Theorem flush_all_forgets_last {S : Type} (lib : Library S)
    (cons : list sqlxDB) :
  forall (s : S) (conns : backup_conns),
  (length cons <= length conns ->
   exists s', flush_all lib s conns cons
              = Ret (s', firstn (length conns - length cons) conns))
  /\ (length conns < length cons ->
      exists msg, flush_all lib s conns cons = Panic msg)
  /\ (forall conn con,
      flushSqliteCon lib s (fst (BackupConnectHook conns conn)) con
      = Ret (fst (lib_Close lib s con), conns)).
Proof.
  induction cons as [|con rest IH]; intros s conns.
  - split; [| split].
    + intros _. exists s. cbn. now rewrite Nat.sub_0_r, firstn_all.
    + cbn. lia.
    + intros conn con. unfold flushSqliteCon, BackupConnectHook. cbn [fst].
      destruct (lib_Close lib s con) as [s' e]. cbn [fst].
      destruct (conns ++ [conn]) eqn:E;
        [destruct conns; discriminate E |].
      now rewrite <- E, removelast_last.
  - split; [| split].
    + intros Hlen. cbn [flush_all length] in *. unfold flushSqliteCon.
      destruct (lib_Close lib s con) as [s1 e].
      destruct conns as [|c conns]; [cbn in Hlen; lia |]. cbn [bind].
      destruct (proj1 (IH s1 (removelast (c :: conns)))) as [s' Hs'].
      { rewrite length_removelast. cbn [length] in *. lia. }
      exists s'. rewrite Hs'. f_equal. f_equal.
      rewrite length_removelast, removelast_firstn_len, firstn_firstn.
      f_equal. cbn [length] in *. lia.
    + intros Hlen. cbn [flush_all length] in *. unfold flushSqliteCon.
      destruct (lib_Close lib s con) as [s1 e].
      destruct conns as [|c conns]; [cbn; eauto |]. cbn [bind].
      apply (proj1 (proj2 (IH s1 (removelast (c :: conns))))).
      rewrite length_removelast. cbn [length] in *. lia.
    + intros conn con'. unfold flushSqliteCon, BackupConnectHook. cbn [fst].
      destruct (lib_Close lib s con') as [s' e]. cbn [fst].
      destruct (conns ++ [conn]) eqn:E;
        [destruct conns; discriminate E |].
      now rewrite <- E, removelast_last.
Qed.

Lemma registered_cons (ds : drivers) (name name' : string) (d : Driver) :
  registered ((name', d) :: ds) name
  = (String.eqb name name' || registered ds name)%bool.
Proof. reflexivity. Qed.

(** [RegisterSqliteHooks] returns exactly when neither driver name is
    registered yet, and then both are; called a second time it panics. *)
Theorem RegisterSqliteHooks_once (ds : drivers) :
  ((exists ds', RegisterSqliteHooks ds = Ret ds') <->
   registered ds DriverDefault = false
   /\ registered ds DriverBackupMode = false)
  /\ (forall ds', RegisterSqliteHooks ds = Ret ds' ->
      registered ds' DriverDefault = true
      /\ registered ds' DriverBackupMode = true
      /\ (forall name, registered ds name = true -> registered ds' name = true)
      /\ exists msg, RegisterSqliteHooks ds' = Panic msg).
Proof.
  unfold RegisterSqliteHooks, sql_Register.
  destruct (registered ds DriverDefault) eqn:E1; cbn [bind].
  { split; [split; [intros [ds' H]; discriminate H | intros [H _]; discriminate H] |].
    intros ds' H. discriminate H. }
  rewrite registered_cons.
  change (String.eqb DriverBackupMode DriverDefault) with false. cbn [orb].
  destruct (registered ds DriverBackupMode) eqn:E2.
  { split; [split; [intros [ds' H]; discriminate H | intros [_ H]; discriminate H] |].
    intros ds' H. discriminate H. }
  split; [split; [auto | eauto] |].
  intros ds' H. injection H as <-.
  rewrite !registered_cons, String.eqb_refl, E1.
  change (String.eqb DriverDefault DriverBackupMode) with false.
  change (String.eqb DriverDefault DriverDefault) with true. cbn [orb bind].
  split; [reflexivity |]. split; [reflexivity |]. split; [| eauto].
  intros name Hn. rewrite !registered_cons, Hn. now rewrite !orb_true_r.
Qed.


Local Open Scope Z_scope.

Lemma w64_range (x : Z) : 0 <= XXHash.w64 x < 2 ^ 64.
Proof. unfold XXHash.w64. apply Z.mod_pos_bound. lia. Qed.

Lemma lxor_range (a b : Z) :
  0 <= a < 2 ^ 64 -> 0 <= b < 2 ^ 64 -> 0 <= Z.lxor a b < 2 ^ 64.
Proof.
  intros Ha Hb.
  assert (H0 : 0 <= Z.lxor a b) by (apply Z.lxor_nonneg; lia).
  split; [exact H0 |].
  destruct (Z.eq_dec (Z.lxor a b) 0) as [-> | Hne]; [lia |].
  apply Z.log2_lt_pow2; [lia |].
  pose proof (Z.log2_lxor a b (proj1 Ha) (proj1 Hb)) as Hl.
  assert (Hla : Z.log2 a < 64).
  { destruct (Z.eq_dec a 0) as [-> | ?]; [cbn; lia |].
    apply Z.log2_lt_pow2; lia. }
  assert (Hlb : Z.log2 b < 64).
  { destruct (Z.eq_dec b 0) as [-> | ?]; [cbn; lia |].
    apply Z.log2_lt_pow2; lia. }
  lia.
Qed.

Lemma shiftr_range (a n : Z) :
  0 <= a < 2 ^ 64 -> 0 <= n -> 0 <= Z.shiftr a n < 2 ^ 64.
Proof.
  intros Ha Hn. rewrite Z.shiftr_div_pow2 by exact Hn.
  assert (Hp : 0 < 2 ^ n) by (apply Z.pow_pos_nonneg; lia).
  split; [apply Z.div_pos; lia |].
  apply Z.le_lt_trans with a; [| lia].
  apply Z.div_le_upper_bound; [exact Hp |]. nia.
Qed.

(** The sum is an unsigned 64-bit number. *)
Lemma ChecksumString64_range (input : string) :
  0 <= XXHash.ChecksumString64 input < 2 ^ 64.
Proof.
  unfold XXHash.ChecksumString64, XXHash.Checksum64S.
  repeat match goal with
         | |- context [let '(_, _) := ?x in _] => destruct x
         end.
  unfold XXHash.avalanche. cbv zeta.
  apply lxor_range; [apply w64_range |].
  apply shiftr_range; [apply w64_range | lia].
Qed.

Lemma parse_decimal_fmt_d (h : Z) : 0 <= h -> parse_decimal (fmt_d h) = Some h.
Proof.
  intros Hh. unfold parse_decimal, fmt_d.
  rewrite NilEmpty.usu. cbn [option_map].
  now rewrite DecimalN.Unsigned.of_to, Z2N.id.
Qed.

(** The text returned by [SQLxxHash], and so by [xhsum], reads back as the
    64-bit sum it was made from: two texts are equal exactly when the sums
    are, so comparing stored sums as text compares the hashes. *)
Theorem SQLxxHash_reads_back (input : string) :
  parse_decimal (SQLxxHash input) = Some (XXHash.ChecksumString64 input)
  /\ 0 <= XXHash.ChecksumString64 input < 2 ^ 64
  /\ (forall input',
      SQLxxHash input = SQLxxHash input' <->
      XXHash.ChecksumString64 input = XXHash.ChecksumString64 input')
  /\ (forall url metadata tags desc,
      parse_decimal (xhsum url metadata tags desc)
      = Some (XXHash.ChecksumString64 (canonical url metadata tags desc))).
Proof.
  pose proof (ChecksumString64_range input) as Hr.
  split; [| split; [exact Hr | split]].
  - rewrite DatabaseProps.SQLxxHash_decimal. apply parse_decimal_fmt_d, Hr.
  - intros input'. split; [| intros H; unfold SQLxxHash; now rewrite H].
    intros H. apply (f_equal parse_decimal) in H.
    rewrite !DatabaseProps.SQLxxHash_decimal, !parse_decimal_fmt_d in H
      by apply ChecksumString64_range.
    now injection H.
  - intros url metadata tags desc. rewrite DatabaseProps.xhsum_canonical.
    apply parse_decimal_fmt_d, ChecksumString64_range.
Qed.

Local Close Scope Z_scope.

(** The connect hook of the default driver returns no error exactly when
    SQLite refuses none of [fuzzy], [tick_clock] and [xhash]; then the three
    functions are registered, [xhash] as [SQLxxHash] and [tick_clock] as
    [sqlTickClock].  In every case what was registered on the connection
    before is still there. *)
Theorem ConnectHook_all_or_error (refuse : string -> error) (conn : SQLiteConn) :
  let '(conn', e) := ConnectHook refuse conn in
  (e = nil <->
   refuse "fuzzy" = nil /\ refuse "tick_clock" = nil /\ refuse "xhash" = nil)
  /\ (e = nil ->
      conn' = ("xhash", FnSQLxxHash) :: ("tick_clock", FnSqlTickClock)
              :: ("fuzzy", FnSQLFuzzy) :: conn)
  /\ (exists added,
        conn' = added ++ conn
        /\ (e <> nil -> forall impl, ~ In ("xhash", impl) added)).
Proof.
  unfold ConnectHook, RegisterFunc.
  destruct (refuse "fuzzy") as [e1|].
  { split; [split; [discriminate | intros (H & _); discriminate H] |].
    split; [discriminate |]. exists []. split; [reflexivity |].
    intros _ impl []. }
  destruct (refuse "tick_clock") as [e2|].
  { split; [split; [discriminate | intros (_ & H & _); discriminate H] |].
    split; [discriminate |]. exists [("fuzzy", FnSQLFuzzy)].
    split; [reflexivity |]. intros _ impl [H | []]. discriminate H. }
  destruct (refuse "xhash") as [e3|].
  { split; [split; [discriminate | intros (_ & _ & H); discriminate H] |].
    split; [discriminate |].
    exists [("tick_clock", FnSqlTickClock); ("fuzzy", FnSQLFuzzy)].
    split; [reflexivity |]. intros _ impl [H | [H | []]]; discriminate H. }
  split; [split; [auto | reflexivity] |]. split; [reflexivity |].
  exists [("xhash", FnSQLxxHash); ("tick_clock", FnSqlTickClock);
          ("fuzzy", FnSQLFuzzy)].
  split; [reflexivity |]. intros H. now contradiction H.
Qed.

End StoreProps.

(** ** [NewDB] and its data source name *)

Module DsnProps.

Import Utils Database Dsn Files.

Local Open Scope string_scope.

Lemma NewDBOpts_none (name dbPath dbFormat : string) :
  NewDBOpts name dbPath dbFormat [] = NewDB name dbPath dbFormat.
Proof.
  unfold NewDBOpts, NewDB. destruct (String.eqb dbPath ""); reflexivity.
Qed.


Lemma NewDBOpts_fields (name dbPath dbFormat : string) (opts : list DsnOptions) :
  let db := NewDBOpts name dbPath dbFormat opts in
  Name db = name /\ Handle db = None /\ LockChecker db = dbPath
  /\ filePath db = dbPath /\ EngineMode db = DriverDefault
  /\ Typ db = if String.eqb dbPath "" then DBTypeInMemory else DBTypeRegularFile.
Proof.
  unfold NewDBOpts. destruct (String.eqb dbPath ""); cbn; repeat split.
Qed.

(** A database made by [NewDB] has no handle, is in memory exactly when
    [dbPath] is empty, and is probed for a lock under [dbPath] itself, not
    under the data source name.  So [Init] on it calls the lock checker
    first, with [dbPath], when [dbPath] is not empty, and never calls it
    otherwise. *)
Theorem NewDB_then_Init (env : SqlEnv) (name dbPath dbFormat : string)
    (opts : list DsnOptions) :
  let db := NewDBOpts name dbPath dbFormat opts in
  Handle db = None
  /\ (Typ db = DBTypeInMemory <-> dbPath = "")
  /\ (dbPath = "" ->
      snd (Init env db) = snd (open env db)
      /\ forall path, ~ In (CallLocked path) (snd (Init env db)))
  /\ (dbPath <> "" ->
      exists rest, snd (Init env db) = CallLocked dbPath :: rest).
Proof.
  cbv zeta.
  destruct (NewDBOpts_fields name dbPath dbFormat opts)
    as (_ & Hh & Hl & _ & _ & Ht).
  set (db := NewDBOpts name dbPath dbFormat opts) in *.
  split; [exact Hh |]. split.
  { rewrite Ht. destruct (String.eqb_spec dbPath "") as [-> | Hne];
      split; congruence. }
  destruct (StoreProps.Init_ways env db)
    as [[Hn _] | [(_ & Ht' & b & e & _ & Hi) | [(_ & Ht' & _ & Hi)
       | (_ & probe & db1 & e & calls & Hp & Ho & Hi)]]];
    [contradiction | | |]; rewrite Hi; cbn [snd]; rewrite ?Hl.
  - split; [| eauto]. intros ->. rewrite Ht in Ht'. discriminate Ht'.
  - split; [| eauto]. intros ->. rewrite Ht in Ht'. discriminate Ht'.
  - rewrite Ho. cbn [snd]. split.
    + intros ->. rewrite Ht in Hp. cbn in Hp.
      destruct Hp as [[_ ->] | (Ht' & _)]; [| discriminate Ht'].
      split; [reflexivity |]. intros path. cbn [app].
      pose proof (DatabaseProps.open_calls env db path) as Hc.
      now rewrite Ho in Hc.
    + intros Hne. apply String.eqb_neq in Hne. rewrite Hne in Ht.
      destruct Hp as [[Ht' _] | (_ & _ & ->)]; [congruence |].
      rewrite Hl. cbn [app]. eauto.
Qed.

Lemma find_byte_contains (c : ascii) (s : string) :
  find_byte c s = None <-> contains c s = false.
Proof.
  induction s as [|d r IH]; cbn; [tauto |].
  destruct (Ascii.eqb d c); cbn; [split; discriminate |].
  destruct (find_byte c r); cbn; [split; [discriminate |] | tauto].
  intros H. apply IH in H. discriminate H.
Qed.

Lemma Sprintf_file (t : string) : Sprintf "file:%s" [fmt_s t] = "file:" ++ t.
Proof. cbn. unfold fmt_s. now rewrite DatabaseProps.append_empty_r. Qed.

Lemma Sprintf_amp (p e : string) :
  Sprintf "%s&%s" [fmt_s p; fmt_s e] = p ++ "&" ++ e.
Proof. cbn. unfold fmt_s. now rewrite DatabaseProps.append_empty_r. Qed.

Lemma Sprintf_question (p e : string) :
  Sprintf "%s?%s" [fmt_s p; fmt_s e] = p ++ "?" ++ e.
Proof. cbn. unfold fmt_s. now rewrite DatabaseProps.append_empty_r. Qed.

Lemma NewDBOpts_path (name dbPath dbFormat : string) (opts : list DsnOptions) :
  Path (NewDBOpts name dbPath dbFormat opts)
  = let path :=
      Sprintf dbFormat [fmt_s (if String.eqb dbPath "" then name else dbPath)] in
    if Nat.ltb 0 (List.length opts) then
      match find_byte "?" path with
      | Some (S _) => Sprintf "%s&%s" [fmt_s path; fmt_s (Encode (collect opts))]
      | _ => Sprintf "%s?%s" [fmt_s path; fmt_s (Encode (collect opts))]
      end
    else path.
Proof. unfold NewDBOpts. destruct (String.eqb dbPath ""); reflexivity. Qed.

Lemma question_mark_in_file (t : string) (A : Type) (a b : A) :
  match find_byte "?" ("file:" ++ t) with
  | Some (S _) => a
  | _ => b
  end = if contains "?" t then a else b.
Proof.
  cbn [append find_byte Ascii.eqb Bool.eqb].
  pose proof (find_byte_contains "?" t) as Hc.
  destruct (find_byte "?" t) as [k|]; cbn [option_map].
  - destruct (contains "?" t); [reflexivity |].
    discriminate (proj2 Hc eq_refl).
  - now rewrite (proj1 Hc eq_refl).
Qed.

(** With the format [DBTypeFileDSN] and at least one options map, the data
    source name is [file:], the path (the name for a database in memory),
    a separator and the encoded options.  The separator is an ampersand as
    soon as the path itself contains a question mark, which is taken for
    the start of query parameters; one empty options map leaves the
    separator at the end. *)
Theorem NewDB_file_dsn (name dbPath : string) (o : DsnOptions)
    (opts : list DsnOptions) :
  let target := if String.eqb dbPath "" then name else dbPath in
  Path (NewDBOpts name dbPath DBTypeFileDSN (o :: opts))
  = "file:" ++ target ++ (if contains "?" target then "&" else "?")
      ++ Encode (collect (o :: opts))
  /\ Path (NewDBOpts name dbPath DBTypeFileDSN [[]])
     = "file:" ++ target ++ (if contains "?" target then "&" else "?")
  /\ Path (NewDBOpts name dbPath DBTypeFileDSN []) = "file:" ++ target.
Proof.
  cbv zeta. set (target := if String.eqb dbPath "" then name else dbPath).
  assert (H : forall o' opts',
            Path (NewDBOpts name dbPath DBTypeFileDSN (o' :: opts'))
            = "file:" ++ target ++ (if contains "?" target then "&" else "?")
                ++ Encode (collect (o' :: opts'))).
  { intros o' opts'. rewrite NewDBOpts_path. cbv zeta.
    fold target. unfold DBTypeFileDSN. rewrite Sprintf_file.
    cbn [List.length Nat.ltb Nat.leb].
    rewrite question_mark_in_file, Sprintf_amp, Sprintf_question.
    destruct (contains "?" target); now rewrite PathProps.append_assoc. }
  split; [apply H |]. split.
  - rewrite H. cbn [collect fold_left Encode map String.concat].
    destruct (contains "?" target); now rewrite !DatabaseProps.append_empty_r.
  - rewrite NewDBOpts_path. cbv zeta. fold target. apply Sprintf_file.
Qed.


Lemma compare_refl (s : string) : String.compare s s = Eq.
Proof.
  induction s as [|c s IH]; [reflexivity |]. cbn.
  unfold Ascii.compare. now rewrite N.compare_refl.
Qed.

Lemma compare_eq (a b : string) : String.compare a b = Eq <-> a = b.
Proof.
  split; [apply String.compare_eq_iff | intros ->; apply compare_refl].
Qed.

Lemma Get_Set (v : Values) (key value k : string) :
  Get (Set_ v key value) k = if String.eqb k key then Some value else Get v k.
Proof.
  induction v as [|[k0 x0] v IH]; [reflexivity |].
  cbn [Set_]. destruct (String.compare key k0) eqn:E.
  - apply compare_eq in E. subst k0. cbn [Get].
    destruct (String.eqb k key); reflexivity.
  - reflexivity.
  - cbn [Get]. rewrite IH.
    destruct (String.eqb_spec k k0) as [-> | _]; [| reflexivity].
    destruct (String.eqb_spec k0 key) as [-> | _]; [| reflexivity].
    rewrite compare_refl in E. discriminate E.
Qed.

Lemma collect_from (opts : list DsnOptions) : forall v : Values,
  fold_left
    (fun dsn o => fold_left (fun dsn kv => Set_ dsn (fst kv) (snd kv)) o dsn)
    opts v
  = fold_left (fun dsn kv => Set_ dsn (fst kv) (snd kv)) (concat opts) v.
Proof.
  induction opts as [|o opts IH]; intros v; [reflexivity |].
  cbn [fold_left concat]. now rewrite fold_left_app, IH.
Qed.

Lemma collect_concat (opts : list DsnOptions) :
  collect opts
  = fold_left (fun dsn kv => Set_ dsn (fst kv) (snd kv)) (concat opts) [].
Proof. apply collect_from. Qed.

Lemma Get_fold (entries : list (string * string)) (k : string) :
  forall v,
    Get (fold_left (fun dsn kv => Set_ dsn (fst kv) (snd kv)) entries v) k
    = match find (fun kv => String.eqb k (fst kv)) (rev entries) with
      | Some kv => Some (snd kv)
      | None => Get v k
      end.
Proof.
  induction entries as [|[k0 x0] entries IH] using rev_ind; intros v;
    [reflexivity |].
  rewrite fold_left_app, rev_app_distr. cbn [fold_left rev app find fst snd].
  rewrite Get_Set. destruct (String.eqb k k0); [reflexivity | apply IH].
Qed.

(** An option given more than once, in one map after another, takes the
    value given last; an option that is in no map is not in the query. *)
Theorem collect_last_wins (opts : list DsnOptions) (key : string) :
  Get (collect opts) key
  = option_map snd
      (find (fun kv => String.eqb key (fst kv)) (rev (concat opts)))
  /\ (forall before value after,
      concat opts = (before ++ (key, value) :: after)%list ->
      ~ In key (map fst after) ->
      Get (collect opts) key = Some value)
  /\ (~ In key (map fst (concat opts)) -> Get (collect opts) key = None).
Proof.
  assert (H : Get (collect opts) key
              = option_map snd
                  (find (fun kv => String.eqb key (fst kv)) (rev (concat opts)))).
  { rewrite collect_concat, Get_fold.
    destruct (find _ (rev (concat opts))); reflexivity. }
  split; [exact H |]. rewrite H. split.
  - intros before value after -> Hafter.
    rewrite rev_app_distr. cbn [rev]. rewrite <- app_assoc. cbn [app].
    assert (Hn : forall l tail : list (string * string),
              ~ In key (map fst l) ->
              find (fun kv => String.eqb key (fst kv)) (l ++ tail)%list
              = find (fun kv => String.eqb key (fst kv)) tail).
    { induction l as [|[k0 x0] l IH]; intros tail Hl; [reflexivity |].
      cbn [app find fst]. cbn [map fst In] in Hl.
      destruct (String.eqb_spec key k0) as [-> | _]; [tauto |].
      apply IH. tauto. }
    rewrite Hn by (rewrite map_rev, <- in_rev; exact Hafter).
    cbn [find fst]. now rewrite String.eqb_refl.
  - intros Hno.
    destruct (find _ (rev (concat opts))) as [[k0 x0]|] eqn:E; [| reflexivity].
    apply find_some in E. destruct E as [Hin Hk]. cbn [fst] in Hk.
    apply String.eqb_eq in Hk. subst k0. exfalso. apply Hno.
    apply in_rev in Hin. now apply (in_map fst) in Hin.
Qed.

Lemma count_app (c : ascii) (a b : string) :
  count c (a ++ b) = count c a + count c b.
Proof.
  induction a as [|d a IH]; [reflexivity |].
  cbn. rewrite IH. lia.
Qed.

Lemma escape_byte_clean (c : ascii) :
  count "&" (escape_byte c) = 0 /\ count "=" (escape_byte c) = 0
  /\ count "?" (escape_byte c) = 0 /\ count " " (escape_byte c) = 0
  /\ count "#" (escape_byte c) = 0.
Proof.
  destruct c as [[] [] [] [] [] [] [] []]; vm_compute; repeat split.
Qed.

Lemma QueryEscape_clean (s : string) :
  count "&" (QueryEscape s) = 0 /\ count "=" (QueryEscape s) = 0
  /\ count "?" (QueryEscape s) = 0 /\ count " " (QueryEscape s) = 0
  /\ count "#" (QueryEscape s) = 0.
Proof.
  induction s as [|c s IH]; [repeat split |].
  cbn [QueryEscape]. rewrite !count_app.
  destruct (escape_byte_clean c) as (-> & -> & -> & -> & ->).
  exact IH.
Qed.

Lemma pair_clean (k x : string) :
  count "=" (QueryEscape k ++ "=" ++ QueryEscape x) = 1
  /\ count "&" (QueryEscape k ++ "=" ++ QueryEscape x) = 0
  /\ count "?" (QueryEscape k ++ "=" ++ QueryEscape x) = 0
  /\ count " " (QueryEscape k ++ "=" ++ QueryEscape x) = 0
  /\ count "#" (QueryEscape k ++ "=" ++ QueryEscape x) = 0.
Proof.
  destruct (QueryEscape_clean k) as (Hk1 & Hk2 & Hk3 & Hk4 & Hk5).
  destruct (QueryEscape_clean x) as (Hx1 & Hx2 & Hx3 & Hx4 & Hx5).
  rewrite !count_app. cbn [append count].
  rewrite Hk1, Hk2, Hk3, Hk4, Hk5, Hx1, Hx2, Hx3, Hx4, Hx5.
  repeat split.
Qed.

(** Whatever bytes the option names and values hold, the encoded query has
    one equals sign per option, one ampersand between two options, and no
    question mark, space or hash sign: no option can add a parameter of its
    own or end the query. *)
Theorem Encode_separators (v : Values) :
  count "=" (Encode v) = List.length v
  /\ count "&" (Encode v) = Nat.pred (List.length v)
  /\ count "?" (Encode v) = 0
  /\ count " " (Encode v) = 0
  /\ count "#" (Encode v) = 0.
Proof.
  unfold Encode. induction v as [|[k x] v IH]; [repeat split |].
  destruct (pair_clean k x) as (P1 & P2 & P3 & P4 & P5).
  destruct v as [|kv v].
  - exact (conj P1 (conj P2 (conj P3 (conj P4 P5)))).
  - destruct IH as (I1 & I2 & I3 & I4 & I5).
    set (f := fun kv : string * string =>
                QueryEscape (fst kv) ++ "=" ++ QueryEscape (snd kv)) in *.
    change (String.concat "&" (map f ((k, x) :: kv :: v)))
      with (f (k, x) ++ String "&" (String.concat "&" (map f (kv :: v)))).
    change (f (k, x)) with (QueryEscape k ++ "=" ++ QueryEscape x).
    rewrite !(count_app _ (QueryEscape k ++ "=" ++ QueryEscape x)).
    cbn [count].
    rewrite P1, P2, P3, P4, P5, I1, I2, I3, I4, I5.
    cbn [List.length Nat.pred]. repeat split.
Qed.


Lemma ascii_compare_lt (a b : ascii) :
  Ascii.compare a b = Lt <-> (N_of_ascii a < N_of_ascii b)%N.
Proof. unfold Ascii.compare. apply N.compare_lt_iff. Qed.

Lemma ascii_compare_eq (a b : ascii) : Ascii.compare a b = Eq <-> a = b.
Proof.
  split; [apply Ascii.compare_eq_iff |].
  intros ->. unfold Ascii.compare. apply N.compare_refl.
Qed.

Lemma compare_lt_trans (a : string) : forall b c,
  String.compare a b = Lt -> String.compare b c = Lt ->
  String.compare a c = Lt.
Proof.
  induction a as [|x a IH]; intros [|y b] [|z c]; cbn; try discriminate;
    try reflexivity.
  destruct (Ascii.compare x y) eqn:Exy; try discriminate;
    destruct (Ascii.compare y z) eqn:Eyz; try discriminate; intros H1 H2.
  - apply ascii_compare_eq in Exy. apply ascii_compare_eq in Eyz. subst.
    assert (E : Ascii.compare z z = Eq) by now apply ascii_compare_eq.
    rewrite E. now apply IH with b.
  - apply ascii_compare_eq in Exy. subst. now rewrite Eyz.
  - apply ascii_compare_eq in Eyz. subst. now rewrite Exy.
  - apply ascii_compare_lt in Exy. apply ascii_compare_lt in Eyz.
    assert (E : Ascii.compare x z = Lt)
      by (apply ascii_compare_lt; now apply N.lt_trans with (N_of_ascii y)).
    now rewrite E.
Qed.

Lemma compare_gt_lt (a b : string) :
  String.compare a b = Gt -> String.compare b a = Lt.
Proof. intros H. rewrite String.compare_antisym, H. reflexivity. Qed.

Lemma In_Set (v : Values) (key value : string) (q : string * string) :
  In q (Set_ v key value) -> q = (key, value) \/ In q v.
Proof.
  induction v as [|[k0 x0] v IH]; cbn [Set_].
  - intros [<- | []]. now left.
  - destruct (String.compare key k0).
    + intros [<- | H]; [now left | right; now right].
    + intros [<- | H]; [now left | now right].
    + intros [<- | H]; [right; now left |].
      destruct (IH H) as [-> | Hin]; [now left | right; now right].
Qed.

Lemma Set_by_key (v : Values) (key value : string) :
  by_key v -> by_key (Set_ v key value).
Proof.
  unfold by_key. induction v as [|[k0 x0] v IH]; intros Hs; cbn [Set_].
  - repeat constructor.
  - inversion Hs as [|? ? Hv Hall]; subst.
    destruct (String.compare key k0) eqn:E.
    + apply compare_eq in E. subst k0. constructor; assumption.
    + constructor; [exact Hs |]. constructor; [exact E |].
      eapply Forall_impl; [| exact Hall]. intros q Hq.
      unfold key_lt in *. cbn [fst] in *.
      now apply compare_lt_trans with k0.
    + constructor; [now apply IH |].
      apply Forall_forall. intros q Hq.
      destruct (In_Set _ _ _ _ Hq) as [-> | Hin].
      * unfold key_lt. cbn [fst]. now apply compare_gt_lt.
      * exact (proj1 (Forall_forall _ _) Hall q Hin).
Qed.

Lemma collect_by_key (opts : list DsnOptions) : by_key (collect opts).
Proof.
  rewrite collect_concat.
  assert (H : forall entries v, by_key v ->
            by_key (fold_left (fun dsn kv => Set_ dsn (fst kv) (snd kv))
                      entries v)).
  { induction entries as [|kv entries IH]; intros v Hv; [exact Hv |].
    cbn [fold_left]. apply IH. now apply Set_by_key. }
  apply H. constructor.
Qed.

Lemma compare_lt_neq (a b : string) : String.compare a b = Lt -> a <> b.
Proof. intros H ->. rewrite compare_refl in H. discriminate H. Qed.

Lemma Get_below (v : Values) (k : string) :
  Forall (fun q => String.compare k (fst q) = Lt) v -> Get v k = None.
Proof.
  induction v as [|[k0 x0] v IH]; intros H; [reflexivity |].
  inversion H as [|? ? Hk Hv]; subst. cbn [Get fst] in *.
  apply compare_lt_neq, String.eqb_neq in Hk. rewrite Hk. now apply IH.
Qed.

(** Two [Values] with the same content are the same list. *)
Lemma by_key_unique (v : Values) : forall w,
  by_key v -> by_key w -> (forall k, Get v k = Get w k) -> v = w.
Proof.
  unfold by_key.
  induction v as [|[k1 x1] v IH]; intros [|[k2 x2] w] Hv Hw Hget.
  - reflexivity.
  - specialize (Hget k2). cbn in Hget. rewrite String.eqb_refl in Hget.
    discriminate Hget.
  - specialize (Hget k1). cbn in Hget. rewrite String.eqb_refl in Hget.
    discriminate Hget.
  - inversion Hv as [|? ? Hv' Hall1]; subst.
    inversion Hw as [|? ? Hw' Hall2]; subst.
    assert (Hk : k1 = k2).
    { destruct (String.compare k1 k2) eqn:E.
      - now apply compare_eq.
      - exfalso. specialize (Hget k1). cbn [Get] in Hget.
        rewrite String.eqb_refl in Hget.
        apply compare_lt_neq in E as Hne. apply String.eqb_neq in Hne.
        rewrite Hne, Get_below in Hget; [discriminate Hget |].
        eapply Forall_impl; [| exact Hall2]. intros q Hq.
        unfold key_lt in Hq. cbn [fst] in Hq.
        now apply compare_lt_trans with k2.
      - exfalso. apply compare_gt_lt in E. specialize (Hget k2).
        cbn [Get] in Hget. rewrite String.eqb_refl in Hget.
        apply compare_lt_neq in E as Hne. apply String.eqb_neq in Hne.
        rewrite Hne, Get_below in Hget; [discriminate Hget |].
        eapply Forall_impl; [| exact Hall1]. intros q Hq.
        unfold key_lt in Hq. cbn [fst] in Hq.
        now apply compare_lt_trans with k1. }
    subst k2.
    assert (Hx : x1 = x2).
    { specialize (Hget k1). cbn in Hget. rewrite String.eqb_refl in Hget.
      congruence. }
    subst x2. f_equal. apply IH; try assumption.
    intros k. specialize (Hget k). cbn [Get] in Hget.
    destruct (String.eqb k k1) eqn:Ek; [| exact Hget].
    apply String.eqb_eq in Ek. subst k.
    rewrite !Get_below; [reflexivity | |].
    + eapply Forall_impl; [| exact Hall2]. now intros q Hq.
    + eapply Forall_impl; [| exact Hall1]. now intros q Hq.
Qed.

Lemma find_append {A : Type} (p : A -> bool) (l1 l2 : list A) :
  find p (l1 ++ l2)%list
  = match find p l1 with Some a => Some a | None => find p l2 end.
Proof.
  induction l1 as [|a l1 IH]; [reflexivity |].
  cbn [app find]. now destruct (p a).
Qed.

Lemma find_key_unique (o : DsnOptions) (k : string) (kv : string * string) :
  NoDup (map fst o) -> In kv o -> fst kv = k ->
  find (fun q => String.eqb k (fst q)) o = Some kv.
Proof.
  induction o as [|[k0 x0] o IH]; intros Hnd Hin Hk; [destruct Hin |].
  cbn [map fst] in Hnd. inversion Hnd as [|? ? Hnot Hnd']; subst.
  cbn [find fst]. destruct Hin as [<- | Hin].
  - cbn [fst]. now rewrite String.eqb_refl.
  - destruct (String.eqb_spec (fst kv) k0) as [<- | _].
    + exfalso. apply Hnot. now apply in_map.
    + now apply IH.
Qed.

Lemma find_same_map (o o' : DsnOptions) (k : string) :
  same_map o o' ->
  find (fun q => String.eqb k (fst q)) (rev o)
  = find (fun q => String.eqb k (fst q)) (rev o').
Proof.
  intros [Hnd Hperm].
  assert (Hnd' : NoDup (map fst (rev o'))).
  { apply Permutation_NoDup with (map fst o); [| exact Hnd].
    apply Permutation_map.
    apply Permutation_trans with o'; [exact Hperm | apply Permutation_rev]. }
  destruct (find (fun q => String.eqb k (fst q)) (rev o)) as [kv|] eqn:E.
  - apply find_some in E. destruct E as [Hin Hk].
    apply String.eqb_eq in Hk. symmetry.
    apply find_key_unique; [exact Hnd' | | now symmetry].
    apply in_rev in Hin. apply -> in_rev.
    now apply (Permutation_in _ Hperm).
  - destruct (find (fun q => String.eqb k (fst q)) (rev o')) as [kv|] eqn:E';
      [| reflexivity].
    apply find_some in E'. destruct E' as [Hin Hk].
    exfalso. assert (Hf : String.eqb k (fst kv) = false).
    { apply (find_none _ _ E kv).
      apply in_rev in Hin. apply -> in_rev.
      apply Permutation_sym in Hperm. now apply (Permutation_in _ Hperm). }
    rewrite Hk in Hf. discriminate Hf.
Qed.

(** The data source name does not depend on the order in which the entries
    of the option maps are ranged over: option maps with the same entries
    give the same [url.Values], the same encoded query and the same
    database. *)
Theorem NewDB_order_independent (name dbPath dbFormat : string)
    (opts opts' : list DsnOptions) :
  Forall2 same_map opts opts' ->
  collect opts = collect opts'
  /\ NewDBOpts name dbPath dbFormat opts = NewDBOpts name dbPath dbFormat opts'.
Proof.
  intros Hsame.
  assert (Hc : collect opts = collect opts').
  { apply by_key_unique; try apply collect_by_key.
    intros k. rewrite !collect_concat, !Get_fold. cbn [Get].
    assert (Hf : find (fun q => String.eqb k (fst q)) (rev (concat opts))
                 = find (fun q => String.eqb k (fst q)) (rev (concat opts'))).
    { induction Hsame as [|o o' opts opts' Ho _ IH]; [reflexivity |].
      cbn [concat]. rewrite !rev_app_distr, !find_append, IH.
      now rewrite (find_same_map o o' k Ho). }
    now rewrite Hf. }
  split; [exact Hc |].
  unfold NewDBOpts. rewrite Hc, (Forall2_length Hsame). reflexivity.
Qed.

Lemma NewDB_order_independent_journal :
  Forall2 same_map
    [[("_journal_mode", "WAL"); ("_mutex", "no")]; [("mode", "ro")]]
    [[("_mutex", "no"); ("_journal_mode", "WAL")]; [("mode", "ro")]]
  /\ (collect [[("_journal_mode", "WAL"); ("_mutex", "no")]; [("mode", "ro")]]
      = collect [[("_mutex", "no"); ("_journal_mode", "WAL")]; [("mode", "ro")]]
      /\ NewDBOpts "gosuki_db" "/home/user/gosuki.db" DBTypeFileDSN
           [[("_journal_mode", "WAL"); ("_mutex", "no")]; [("mode", "ro")]]
         = NewDBOpts "gosuki_db" "/home/user/gosuki.db" DBTypeFileDSN
             [[("_mutex", "no"); ("_journal_mode", "WAL")]; [("mode", "ro")]]).
Proof.
  assert (H : Forall2 same_map
    [[("_journal_mode", "WAL"); ("_mutex", "no")]; [("mode", "ro")]]
    [[("_mutex", "no"); ("_journal_mode", "WAL")]; [("mode", "ro")]]).
  { constructor; [| constructor; [| constructor]].
    - split; [| apply perm_swap].
      constructor; [| constructor; [intros [] | constructor]].
      intros [E | []]. discriminate E.
    - split; [| apply Permutation_refl].
      constructor; [intros [] | constructor]. }
  split; [exact H |].
  apply (NewDB_order_independent "gosuki_db" "/home/user/gosuki.db"
           DBTypeFileDSN _ _ H).
Defined.

End DsnProps.
